(** * Subscriptions service: unsubscribe workflow, store upsert, signup handlers

    A shallow embedding of [packages/api/src/services/subscriptions.ts].

    Strings are Rocq strings, read as the UTF-8 bytes of the JavaScript
    string.  Asynchronous code is embedded in a state-and-exception monad over
    a [World] (the two tables of the store and the trace of every call that
    leaves the process); a rejected promise is a [Throw]. *)

From Stdlib Require Import String Ascii DecimalString List Bool Arith NArith ZArith Lia.
Import ListNotations.

(* ------------------------------------------------------------------ *)
(** ** Characters and byte strings *)

Definition code (c : ascii) : nat := nat_of_ascii c.

Definition chars (s : string) : list ascii := list_ascii_of_string s.
Definition str (l : list ascii) : string := string_of_list_ascii l.

Fixpoint take_while {A} (p : A -> bool) (l : list A) : list A :=
  match l with
  | [] => []
  | x :: l' => if p x then x :: take_while p l' else []
  end.

Fixpoint drop_while {A} (p : A -> bool) (l : list A) : list A :=
  match l with
  | [] => []
  | x :: l' => if p x then drop_while p l' else l
  end.

Fixpoint is_prefix (p l : list ascii) : bool :=
  match p, l with
  | [], _ => true
  | _ :: _, [] => false
  | a :: p', b :: l' => Ascii.eqb a b && is_prefix p' l'
  end.

(** [String.prototype.replace(pattern, '')] with a string pattern: the first
    occurrence of [pat] is removed; an empty pattern matches at index 0 and
    removes nothing. *)
Fixpoint remove_first (pat l : list ascii) : list ascii :=
  if is_prefix pat l then skipn (length pat) l
  else match l with
       | [] => []
       | c :: l' => c :: remove_first pat l'
       end.

(** [String.prototype.includes] for a one-character pattern. *)
Definition includes (l : list ascii) (c : ascii) : bool :=
  existsb (Ascii.eqb c) l.

Definition is_digit (c : ascii) : bool := (48 <=? code c) && (code c <=? 57).

Definition is_hex_digit (c : ascii) : bool :=
  is_digit c
  || ((65 <=? code c) && (code c <=? 70))
  || ((97 <=? code c) && (code c <=? 102)).

Definition hex_value (c : ascii) : nat :=
  if is_digit c then code c - 48
  else if (65 <=? code c) && (code c <=? 70) then code c - 55
  else code c - 87.

Definition hex_char (n : nat) : ascii :=
  ascii_of_nat (if n <? 10 then 48 + n else 55 + n).

(* ------------------------------------------------------------------ *)
(** ** The platform's [URL] class, on inputs [mailto://...]

    [new URL] is the JavaScript runtime's WHATWG URL parser, not code of this
    repository.  The model below follows the URL Standard's basic URL parser
    on an input that starts with [mailto://]: the scheme state reads
    [mailto:] (a scheme that is not special), the two slashes lead to the
    authority state, and what follows runs through the authority, host, port,
    path, query and fragment states.  Only the query is kept, the one
    component the service reads ([search] and [searchParams]). *)

Module URL.

Definition is_c0_control_or_space (c : ascii) : bool := code c <=? 32.

Definition is_ascii_tab_or_newline (c : ascii) : bool :=
  (code c =? 9) || (code c =? 10) || (code c =? 13).

(** Input clean-up of the basic URL parser, on what follows [mailto://]
    (the input starts with a letter, so only its tail can be stripped):
    trailing C0 controls and spaces are dropped, then every tab and newline
    is removed. *)
Definition clean (l : list ascii) : list ascii :=
  filter (fun c => negb (is_ascii_tab_or_newline c))
         (rev (drop_while is_c0_control_or_space (rev l))).

Definition ends_authority (c : ascii) : bool :=
  (c =? "/")%char || (c =? "?")%char || (c =? "#")%char.

(** Authority state: everything up to the last [@] is credentials. *)
Fixpoint after_last_at (l : list ascii) : option (list ascii) :=
  match l with
  | [] => None
  | c :: l' =>
      match after_last_at l' with
      | Some r => Some r
      | None => if (c =? "@")%char then Some l' else None
      end
  end.

(** Host state: the host runs to the first [:] outside square brackets. *)
Fixpoint split_host_port (inside : bool) (l : list ascii)
  : list ascii * option (list ascii) :=
  match l with
  | [] => ([], None)
  | c :: l' =>
      if (c =? ":")%char && negb inside then ([], Some l')
      else
        let inside' :=
          if (c =? "[")%char then true
          else if (c =? "]")%char then false else inside in
        let (h, p) := split_host_port inside' l' in
        (c :: h, p)
  end.

Definition forbidden_host_code_point (c : ascii) : bool :=
  existsb (Nat.eqb (code c))
          [0; 9; 10; 13; 32; 35; 47; 58; 60; 62; 63; 64; 91; 92; 93; 94; 124].

(** *** IPv6 literals (the URL Standard's IPv6 parser, validity only) *)

Fixpoint take_hex (n : nat) (l : list ascii) : list ascii * list ascii :=
  match n, l with
  | S n', c :: l' =>
      if is_hex_digit c
      then let (h, r) := take_hex n' l' in (c :: h, r)
      else ([], l)
  | _, _ => ([], l)
  end.

(** One decimal piece of an embedded IPv4 address: [Some rest] when the
    digits read stay below 256 and do not continue a leading zero. *)
Fixpoint ipv4_piece (piece : option nat) (l : list ascii)
  : option (list ascii) :=
  match l with
  | c :: l' =>
      if is_digit c then
        match piece with
        | None => ipv4_piece (Some (code c - 48)) l'
        | Some 0 => None
        | Some p =>
            let p' := p * 10 + (code c - 48) in
            if 255 <? p' then None else ipv4_piece (Some p') l'
        end
      else Some l
  | [] => Some l
  end.

Fixpoint ipv4_in_ipv6 (fuel numbersSeen : nat) (l : list ascii) : bool :=
  match fuel with
  | 0 => false
  | S fuel' =>
      match l with
      | [] => numbersSeen =? 4
      | c :: l' =>
          let after_dot :=
            if 0 <? numbersSeen
            then if (c =? ".")%char && (numbersSeen <? 4)
                 then Some l' else None
            else Some l in
          match after_dot with
          | None => false
          | Some l1 =>
              match l1 with
              | d :: _ =>
                  if is_digit d then
                    match ipv4_piece None l1 with
                    | Some rest => ipv4_in_ipv6 fuel' (S numbersSeen) rest
                    | None => false
                    end
                  else false
              | [] => false
              end
          end
      end
  end.

Fixpoint ipv6_pieces (fuel pieceIndex : nat) (compress : bool)
         (l : list ascii) : bool :=
  match fuel with
  | 0 => false
  | S fuel' =>
      match l with
      | [] => compress || (pieceIndex =? 8)
      | c :: l' =>
          if pieceIndex =? 8 then false
          else if (c =? ":")%char then
            if compress then false
            else ipv6_pieces fuel' (S pieceIndex) true l'
          else
            let (digits, rest) := take_hex 4 l in
            match rest with
            | [] => ipv6_pieces fuel' (S pieceIndex) compress []
            | r :: rest' =>
                if (r =? ".")%char then
                  match digits with
                  | [] => false
                  | _ :: _ =>
                      if 6 <? pieceIndex then false
                      else ipv4_in_ipv6 (S (length l)) 0 l
                           && (compress || (pieceIndex + 2 =? 8))
                  end
                else if (r =? ":")%char then
                  match rest' with
                  | [] => false
                  | _ :: _ => ipv6_pieces fuel' (S pieceIndex) compress rest'
                  end
                else false
            end
      end
  end.

Definition ipv6_valid (l : list ascii) : bool :=
  match l with
  | c :: l' =>
      if (c =? ":")%char then
        match l' with
        | c' :: l'' =>
            if (c' =? ":")%char
            then ipv6_pieces (S (length l'')) 1 true l''
            else false
        | [] => false
        end
      else ipv6_pieces (S (length l)) 0 false l
  | [] => ipv6_pieces 1 0 false []
  end.

(** Host parser for a scheme that is not special: a bracketed host is an
    IPv6 literal, anything else is an opaque host, refused when it holds a
    forbidden host code point. *)
Definition host_valid (h : list ascii) : bool :=
  match h with
  | c :: inner =>
      if (c =? "[")%char then
        match rev inner with
        | c' :: r => (c' =? "]")%char && ipv6_valid (rev r)
        | [] => false
        end
      else negb (existsb forbidden_host_code_point h)
  | [] => true
  end.

Definition digits_value (l : list ascii) : N :=
  fold_left (fun acc c => (acc * 10 + N.of_nat (code c - 48))%N) l 0%N.

(** Port state: digits only, and a value of at most 65535. *)
Definition port_valid (p : list ascii) : bool :=
  forallb is_digit p && (digits_value p <=? 65535)%N.

(** The query percent-encode set, on bytes: C0 controls, everything above
    [~], space, double quote, [#], [<] and [>]. *)
Definition in_query_percent_encode_set (c : ascii) : bool :=
  (code c <=? 32) || (126 <? code c)
  || existsb (Nat.eqb (code c)) [34; 35; 60; 62].

Definition percent_encode_byte (c : ascii) : list ascii :=
  ["%"%char; hex_char (code c / 16); hex_char (code c mod 16)].

Definition percent_encode_query (l : list ascii) : list ascii :=
  flat_map (fun c => if in_query_percent_encode_set c
                     then percent_encode_byte c else [c]) l.

Record t := { query : option (list ascii) }.

Definition is_query_or_fragment_start (c : ascii) : bool :=
  (c =? "?")%char || (c =? "#")%char.

(** Path, query and fragment states on what follows the authority. *)
Definition parse_after_authority (l : list ascii) : t :=
  match drop_while (fun c => negb (is_query_or_fragment_start c)) l with
  | c :: q =>
      if (c =? "?")%char
      then {| query := Some (percent_encode_query
                               (take_while (fun c => negb (c =? "#")%char) q)) |}
      else {| query := None |}
  | [] => {| query := None |}
  end.

(** Host and port states: the host may not be empty before a port, and
    both must parse. *)
Definition hostport_valid (hp : list ascii) : bool :=
  match split_host_port false hp with
  | ([], Some _) => false
  | (h, Some p) => host_valid h && port_valid p
  | (h, None) => host_valid h
  end.

(** Authority state: credentials followed by nothing are refused. *)
Definition authority_valid (authority : list ascii) : bool :=
  match after_last_at authority with
  | Some [] => false
  | Some hp => hostport_valid hp
  | None => hostport_valid authority
  end.

(** [new URL(`mailto://${s}`)]: [None] when the constructor throws. *)
Definition parse_mailto (s : list ascii) : option t :=
  let input := clean s in
  if authority_valid (take_while (fun c => negb (ends_authority c)) input)
  then Some (parse_after_authority
               (drop_while (fun c => negb (ends_authority c)) input))
  else None.

(** The [search] getter: empty when the query is absent or empty. *)
Definition search (u : t) : list ascii :=
  match query u with
  | None | Some [] => []
  | Some (c :: q) => "?"%char :: c :: q
  end.

(** *** [searchParams]: the application/x-www-form-urlencoded parser *)

Fixpoint split_on (sep : ascii) (l : list ascii) : list (list ascii) :=
  match l with
  | [] => [[]]
  | c :: l' =>
      if (c =? sep)%char then [] :: split_on sep l'
      else match split_on sep l' with
           | w :: ws => (c :: w) :: ws
           | [] => [[c]]
           end
  end.

Definition plus_to_space (l : list ascii) : list ascii :=
  map (fun c => if (c =? "+")%char then " "%char else c) l.

Fixpoint percent_decode (l : list ascii) : list ascii :=
  match l with
  | [] => []
  | c :: l1 =>
      if (c =? "%")%char then
        match l1 with
        | h1 :: h2 :: l2 =>
            if is_hex_digit h1 && is_hex_digit h2
            then ascii_of_nat (16 * hex_value h1 + hex_value h2)
                   :: percent_decode l2
            else c :: percent_decode l1
        | _ => c :: percent_decode l1
        end
      else c :: percent_decode l1
  end.

(** UTF-8 decode without BOM, on the byte reading of strings: a
    well-formed sequence is kept as it is, each error becomes U+FFFD. *)
Definition replacement : list ascii :=
  [ascii_of_nat 239; ascii_of_nat 191; ascii_of_nat 189].

Record decoder := {
  pending : list ascii;   (* bytes of the sequence read so far, reversed *)
  needed : nat;
  lower : nat;
  upper : nat
}.

Definition idle : decoder :=
  {| pending := []; needed := 0; lower := 128; upper := 191 |}.

Definition decode_lead (b : ascii) : list ascii * decoder :=
  let n := code b in
  if n <=? 127 then ([b], idle)
  else if (194 <=? n) && (n <=? 223)
  then ([], {| pending := [b]; needed := 1; lower := 128; upper := 191 |})
  else if (224 <=? n) && (n <=? 239)
  then ([], {| pending := [b]; needed := 2;
               lower := if n =? 224 then 160 else 128;
               upper := if n =? 237 then 159 else 191 |})
  else if (240 <=? n) && (n <=? 244)
  then ([], {| pending := [b]; needed := 3;
               lower := if n =? 240 then 144 else 128;
               upper := if n =? 244 then 143 else 191 |})
  else (replacement, idle).

Fixpoint utf8_decode (d : decoder) (l : list ascii) : list ascii :=
  match l with
  | [] => if needed d =? 0 then [] else replacement
  | b :: l' =>
      if needed d =? 0 then
        let (out, d') := decode_lead b in out ++ utf8_decode d' l'
      else if (lower d <=? code b) && (code b <=? upper d) then
        if needed d =? 1
        then rev (b :: pending d) ++ utf8_decode idle l'
        else utf8_decode {| pending := b :: pending d;
                            needed := needed d - 1;
                            lower := 128; upper := 191 |} l'
      else
        let (out, d') := decode_lead b in
        replacement ++ out ++ utf8_decode d' l'
  end.

Definition decode_component (l : list ascii) : list ascii :=
  utf8_decode idle (percent_decode (plus_to_space l)).

Definition name_value (l : list ascii) : list ascii * list ascii :=
  (decode_component (take_while (fun c => negb (c =? "=")%char) l),
   decode_component
     (match drop_while (fun c => negb (c =? "=")%char) l with
      | _ :: v => v
      | [] => []
      end)).

Definition urlencoded_parse (q : list ascii) : list (list ascii * list ascii) :=
  map name_value
      (filter (fun w => match w with [] => false | _ => true end)
              (split_on "&"%char q)).

Definition list_ascii_eqb (a b : list ascii) : bool :=
  String.eqb (str a) (str b).

Definition params_get (name : list ascii)
           (ps : list (list ascii * list ascii)) : option (list ascii) :=
  match find (fun p => list_ascii_eqb (fst p) name) ps with
  | Some p => Some (snd p)
  | None => None
  end.

(** [searchParams.get(name)]: the first value under [name], or null. *)
Definition searchParams_get (u : t) (name : list ascii)
  : option (list ascii) :=
  match query u with
  | None => None
  | Some q => params_get name (urlencoded_parse q)
  end.

End URL.

(* ------------------------------------------------------------------ *)
(** ** Errors and results *)

Inductive Error :=
| InvalidUnsubscribeAddress (input : string)
    (* new Error(`Invalid unsubscribe email address: ${input}`) *)
| InvalidURL (input : string)          (* the TypeError of [new URL] *)
| AxiosError (message : string)
| PersistenceError (message : string)
| OtherError (message : string).

Inductive Result (A : Type) :=
| Ok (a : A)
| Throw (e : Error).

Arguments Ok {A} a.
Arguments Throw {A} e.

(* ------------------------------------------------------------------ *)
(** ** parseUnsubscribeMailTo *)

Record ParsedMailTo := { to : string; subject : string }.

Definition parseUnsubscribeMailTo (unsubscribeMailTo : string)
  : Result ParsedMailTo :=
  match URL.parse_mailto (chars unsubscribeMailTo) with
  | None => Throw (InvalidURL ("mailto://" ++ unsubscribeMailTo))
  | Some parsed =>
      let subject :=
        match URL.searchParams_get parsed (chars "subject") with
        | Some (c :: v) => str (c :: v)
        | Some [] | None => "Unsubscribe"%string
        end in
      let to := remove_first (URL.search parsed) (chars unsubscribeMailTo) in
      if match to with [] => true | _ => false end || negb (includes to "@"%char)
      then Throw (InvalidUnsubscribeAddress unsubscribeMailTo)
      else Ok {| to := str to; subject := subject |}
  end.

(* ------------------------------------------------------------------ *)
(** ** Entities *)

Inductive SubscriptionType := Newsletter | Rss.
Inductive SubscriptionStatus := Active | Unsubscribed.

Definition SubscriptionType_eqb (a b : SubscriptionType) : bool :=
  match a, b with
  | Newsletter, Newsletter | Rss, Rss => true
  | _, _ => false
  end.

Module NewsletterEmail.
Record t := {
  id : string;
  address : string;
  user : string                          (* user.id *)
}.
End NewsletterEmail.

Module Subscription.
Record t := {
  id : string;
  name : string;
  type : SubscriptionType;
  status : SubscriptionStatus;
  unsubscribeMailTo : option string;
  unsubscribeHttpUrl : option string;
  icon : option string;
  lastFetchedAt : option Z;              (* a Date, in milliseconds *)
  user : string;                         (* user.id *)
  newsletterEmailId : option string;     (* the foreign key column *)
  newsletterEmail : option NewsletterEmail.t  (* the relation, when loaded *)
}.

(** The key of the data model's uniqueness invariant. *)
Definition key (s : t) : string * string * SubscriptionType :=
  (user s, name s, type s).
End Subscription.

(** A partial entity, as passed to [update] and [save]: a field that is
    [undefined] or absent is [None]. *)
Record SubscriptionData := {
  d_name : option string;
  d_type : option SubscriptionType;
  d_status : option SubscriptionStatus;
  d_unsubscribeMailTo : option string;
  d_unsubscribeHttpUrl : option string;
  d_icon : option string;
  d_lastFetchedAt : option Z;
  d_user : option string;
  d_newsletterEmail : option string
}.

(** Modelled from the spec: the Subscription entity declaration
    ([entity/subscription]) is not among the sources; a row inserted without
    a status is Active ("insert a new row with status Active"). *)
Definition default_status : SubscriptionStatus := Active.

(** Modelled from the spec: the Subscription entity declaration is not among
    the sources; a row inserted without a type is a Newsletter subscription
    (the rows of the signup flow reference a NewsletterEmail, which only
    Newsletter subscriptions do). *)
Definition default_type : SubscriptionType := Newsletter.

(* ------------------------------------------------------------------ *)
(** ** The world outside the service *)

Record EmailMessage := {
  mail_to : string;
  mail_subject : string;
  mail_text : string;
  mail_from : string
}.

Inductive HttpMethod := GET | POST | PUT.

(** The object the signup handlers pass as the data of [axios.post] and
    [axios.put]: [{ headers: { 'content-type': ... }, body: ... }]. *)
Record RequestData := {
  data_headers_contentType : string;
  data_body : string
}.

(** An axios call: [axios.get(url, { timeout })], [axios.post(url, data)] or
    [axios.put(url, data)]. *)
Record HttpRequest := {
  http_method : HttpMethod;
  http_url : string;
  http_timeout : option Z;
  http_data : option RequestData
}.

Inductive RepoOp :=
| FindOneSubscription (name userId : string) (type : SubscriptionType)
| FindSubscriptions (userId newsletterEmailId : string)
| UpdateSubscription (id : string) (data : SubscriptionData)
| DeleteSubscription (id : string)
| SaveSubscription (data : SubscriptionData)
| FindOneNewsletterEmail (userId : string).

Inductive LogDetail :=
| LogString (s : string)
| LogError (e : Error).

Inductive Event :=
| EvLog (message : string) (detail : LogDetail)
| EvSendEmail (m : EmailMessage)
| EvHttp (r : HttpRequest)
| EvRepo (op : RepoOp)
| EvCreateNewsletterEmail (userId : string).

Record World := {
  subscriptions : list Subscription.t;
  newsletter_emails : list NewsletterEmail.t;
  trace : list Event                       (* most recent first *)
}.

(** The time of a call is the number of calls made before it. *)
Definition now (w : World) : nat := length (trace w).

(** What the collaborators answer, call by call. *)
Record Env := {
  sendEmail_outcome : nat -> EmailMessage -> Result bool;
  axios_outcome : nat -> HttpRequest -> option Error;
      (* [None]: a response arrived; [Some e]: the call raised [e] *)
  repo_fault : nat -> RepoOp -> option Error;
      (* [Some e]: the store call raised [e] and changed nothing *)
  clock : nat -> Z;                        (* new Date() *)
  generated_id : nat -> string;
  createNewsletterEmail_outcome : nat -> string -> Result (string * string);
      (* id and address of the mailbox provisioned *)
  unique_enforced : bool
      (* whether the store refuses a second row with the same
         (user, name, type) *)
}.

(* ------------------------------------------------------------------ *)
(** ** The monad of asynchronous code *)

Definition M (A : Type) : Type := World -> Result A * World.

Definition ret {A} (a : A) : M A := fun w => (Ok a, w).

Definition throw {A} (e : Error) : M A := fun w => (Throw e, w).

Definition bind {A B} (m : M A) (k : A -> M B) : M B :=
  fun w =>
    match m w with
    | (Ok a, w') => k a w'
    | (Throw e, w') => (Throw e, w')
    end.

Definition try_catch {A} (body : M A) (handler : Error -> M A) : M A :=
  fun w =>
    match body w with
    | (Ok a, w') => (Ok a, w')
    | (Throw e, w') => handler e w'
    end.

Declare Scope async_scope.
Delimit Scope async_scope with async.
Notation "x <- m ;; k" := (bind m (fun x => k))
  (at level 61, m at next level, right associativity) : async_scope.
Notation "m ;; k" := (bind m (fun _ => k))
  (at level 61, right associativity) : async_scope.
Open Scope async_scope.

Definition emit (e : Event) : M unit :=
  fun w => (Ok tt, {| subscriptions := subscriptions w;
                      newsletter_emails := newsletter_emails w;
                      trace := e :: trace w |}).

(** A promise that has settled. *)
Definition Promise (A : Type) : Type := Result A.

(** Calling an async function without awaiting it: the call runs, and its
    outcome is held by the promise instead of being raised. *)
Definition spawn {A} (m : M A) : M (Promise A) :=
  fun w => let (r, w') := m w in (Ok r, w').

Definition await {A} (p : Promise A) : M A := fun w => (p, w).

(** [Promise.all]: the values in order, or the first rejection. *)
Fixpoint Promise_all {A} (ps : list (Promise A)) : Promise (list A) :=
  match ps with
  | [] => Ok []
  | Ok a :: ps' =>
      match Promise_all ps' with
      | Ok l => Ok (a :: l)
      | Throw e => Throw e
      end
  | Throw e :: _ => Throw e
  end.

(** [array.map(f)] with an effectful callback. *)
Fixpoint map_M {A B} (f : A -> M B) (l : list A) : M (list B) :=
  match l with
  | [] => ret []
  | a :: l' => b <- f a ;; bs <- map_M f l' ;; ret (b :: bs)
  end.

(** [for (const x of l) { body }]. *)
Fixpoint for_of {A} (l : list A) (body : A -> M unit) : M unit :=
  match l with
  | [] => ret tt
  | a :: l' => body a ;; for_of l' body
  end.

(** JavaScript truthiness of an optional string. *)
Definition truthy (o : option string) : bool :=
  match o with
  | Some (String _ _) => true
  | Some EmptyString | None => false
  end.

Definition read {A} (f : World -> A) : M A := fun w => (Ok (f w), w).

Definition lift {A} (r : Result A) : M A := fun w => (r, w).

Definition set_subscriptions (rows : list Subscription.t) : M unit :=
  fun w => (Ok tt, {| subscriptions := rows;
                      newsletter_emails := newsletter_emails w;
                      trace := trace w |}).

Definition set_newsletter_emails (rows : list NewsletterEmail.t) : M unit :=
  fun w => (Ok tt, {| subscriptions := subscriptions w;
                      newsletter_emails := rows;
                      trace := trace w |}).

(** [logger.info]: fire and forget, never raises. *)
Definition log (message : string) (detail : LogDetail) : M unit :=
  emit (EvLog message detail).

Definition or_else {A} (o : option A) (d : A) : A :=
  match o with Some a => a | None => d end.

(** Sets the columns a partial entity defines and skips the others. *)
Definition apply_data (d : SubscriptionData) (s : Subscription.t)
  : Subscription.t :=
  {| Subscription.id := Subscription.id s;
     Subscription.name := or_else (d_name d) (Subscription.name s);
     Subscription.type := or_else (d_type d) (Subscription.type s);
     Subscription.status := or_else (d_status d) (Subscription.status s);
     Subscription.unsubscribeMailTo :=
       match d_unsubscribeMailTo d with
       | Some v => Some v | None => Subscription.unsubscribeMailTo s end;
     Subscription.unsubscribeHttpUrl :=
       match d_unsubscribeHttpUrl d with
       | Some v => Some v | None => Subscription.unsubscribeHttpUrl s end;
     Subscription.icon :=
       match d_icon d with
       | Some v => Some v | None => Subscription.icon s end;
     Subscription.lastFetchedAt :=
       match d_lastFetchedAt d with
       | Some v => Some v | None => Subscription.lastFetchedAt s end;
     Subscription.user := or_else (d_user d) (Subscription.user s);
     Subscription.newsletterEmailId :=
       match d_newsletterEmail d with
       | Some v => Some v | None => Subscription.newsletterEmailId s end;
     Subscription.newsletterEmail := Subscription.newsletterEmail s |}.

Definition load_newsletterEmail (emails : list NewsletterEmail.t)
           (s : Subscription.t) : Subscription.t :=
  {| Subscription.id := Subscription.id s;
     Subscription.name := Subscription.name s;
     Subscription.type := Subscription.type s;
     Subscription.status := Subscription.status s;
     Subscription.unsubscribeMailTo := Subscription.unsubscribeMailTo s;
     Subscription.unsubscribeHttpUrl := Subscription.unsubscribeHttpUrl s;
     Subscription.icon := Subscription.icon s;
     Subscription.lastFetchedAt := Subscription.lastFetchedAt s;
     Subscription.user := Subscription.user s;
     Subscription.newsletterEmailId := Subscription.newsletterEmailId s;
     Subscription.newsletterEmail :=
       match Subscription.newsletterEmailId s with
       | Some i => find (fun e => String.eqb (NewsletterEmail.id e) i) emails
       | None => None
       end |}.

Definition has_id (id : string) (s : Subscription.t) : bool :=
  String.eqb (Subscription.id s) id.

(** What [update(id, data)] does to one row. *)
Definition update_row (id : string) (data : SubscriptionData)
           (s : Subscription.t) : Subscription.t :=
  if has_id id s then apply_data data s else s.

Definition matches (name userId : string) (type : SubscriptionType)
           (s : Subscription.t) : bool :=
  String.eqb (Subscription.name s) name
  && String.eqb (Subscription.user s) userId
  && SubscriptionType_eqb (Subscription.type s) type.

Definition bound_to (userId newsletterEmailId : string) (s : Subscription.t)
  : bool :=
  String.eqb (Subscription.user s) userId
  && match Subscription.newsletterEmailId s with
     | Some i => String.eqb i newsletterEmailId
     | None => false
     end.

Record SaveSubscriptionInput := {
  in_userId : string;
  in_name : string;
  in_newsletterEmail : NewsletterEmail.t;
  in_unsubscribeMailTo : option string;
  in_unsubscribeHttpUrl : option string;
  in_icon : option string;
  in_from : option string
}.

Record UpdateResult := { affected : nat }.

Section Service.

Variable E : Env.

(** *** The store adapter

    Modelled from the spec: [getRepository] ([entity/utils]) and the store
    behind it are not among the sources.  A table is the list of its rows;
    every call is recorded in the trace and may raise a persistence error
    ([repo_fault]), in which case it changes nothing. *)

Definition repo (op : RepoOp) : M unit :=
  t <- read now ;;
  emit (EvRepo op) ;;
  match repo_fault E t op with
  | Some e => throw e
  | None => ret tt
  end.

Definition Subscription_findOneBy (name userId : string)
           (type : SubscriptionType) : M (option Subscription.t) :=
  repo (FindOneSubscription name userId type) ;;
  rows <- read subscriptions ;;
  ret (find (matches name userId type) rows).

(** [find({ where: { user, newsletterEmail }, relations: ['newsletterEmail'] })] *)
Definition Subscription_find (userId newsletterEmailId : string)
  : M (list Subscription.t) :=
  repo (FindSubscriptions userId newsletterEmailId) ;;
  rows <- read subscriptions ;;
  emails <- read newsletter_emails ;;
  ret (map (load_newsletterEmail emails)
           (filter (bound_to userId newsletterEmailId) rows)).

Definition Subscription_update (id : string) (data : SubscriptionData)
  : M UpdateResult :=
  repo (UpdateSubscription id data) ;;
  rows <- read subscriptions ;;
  set_subscriptions (map (update_row id data) rows) ;;
  ret {| affected := length (filter (has_id id) rows) |}.

Definition Subscription_delete (id : string) : M unit :=
  repo (DeleteSubscription id) ;;
  rows <- read subscriptions ;;
  set_subscriptions (filter (fun s => negb (has_id id s)) rows).

(** [save] of an entity without an id: an insert.  The row gets a generated
    id and the column defaults; the name and the user are mandatory
    columns.  When the store enforces the (user, name, type) constraint, a
    second row with the same key is refused. *)
Definition Subscription_save (data : SubscriptionData) : M Subscription.t :=
  t <- read now ;;
  repo (SaveSubscription data) ;;
  match d_name data, d_user data with
  | Some name, Some user =>
      let type := or_else (d_type data) default_type in
      let row :=
        {| Subscription.id := generated_id E t;
           Subscription.name := name;
           Subscription.type := type;
           Subscription.status := or_else (d_status data) default_status;
           Subscription.unsubscribeMailTo := d_unsubscribeMailTo data;
           Subscription.unsubscribeHttpUrl := d_unsubscribeHttpUrl data;
           Subscription.icon := d_icon data;
           Subscription.lastFetchedAt := d_lastFetchedAt data;
           Subscription.user := user;
           Subscription.newsletterEmailId := d_newsletterEmail data;
           Subscription.newsletterEmail := None |} in
      rows <- read subscriptions ;;
      if unique_enforced E && existsb (matches name user type) rows
      then throw (PersistenceError
                    "duplicate key value violates unique constraint")
      else set_subscriptions (rows ++ [row]) ;; ret row
  | _, _ =>
      throw (PersistenceError "null value violates not-null constraint")
  end.

Definition NewsletterEmail_findOneBy (userId : string)
  : M (option NewsletterEmail.t) :=
  repo (FindOneNewsletterEmail userId) ;;
  rows <- read newsletter_emails ;;
  ret (find (fun e => String.eqb (NewsletterEmail.user e) userId) rows).

(** *** Other collaborators *)

(** Modelled from the spec: [createNewsletterEmail] ([services/newsletters])
    is not among the sources; it provisions a new receiving address for the
    user, or raises. *)
Definition createNewsletterEmail (userId : string) : M NewsletterEmail.t :=
  t <- read now ;;
  emit (EvCreateNewsletterEmail userId) ;;
  created <- lift (createNewsletterEmail_outcome E t userId) ;;
  let row := {| NewsletterEmail.id := fst created;
                NewsletterEmail.address := snd created;
                NewsletterEmail.user := userId |} in
  rows <- read newsletter_emails ;;
  set_newsletter_emails (rows ++ [row]) ;;
  ret row.

Definition sendEmail (m : EmailMessage) : M bool :=
  t <- read now ;;
  emit (EvSendEmail m) ;;
  lift (sendEmail_outcome E t m).

Definition axios (r : HttpRequest) : M unit :=
  t <- read now ;;
  emit (EvHttp r) ;;
  match axios_outcome E t r with
  | Some e => throw e
  | None => ret tt
  end.

Definition axios_get (url : string) (timeout : Z) : M unit :=
  axios {| http_method := GET; http_url := url;
           http_timeout := Some timeout;
           http_data := None |}.

Definition axios_post (url : string) (data : RequestData) : M unit :=
  axios {| http_method := POST; http_url := url;
           http_timeout := None;
           http_data := Some data |}.

Definition axios_put (url : string) (data : RequestData) : M unit :=
  axios {| http_method := PUT; http_url := url;
           http_timeout := None;
           http_data := Some data |}.

(** *** The service *)

Definition UNSUBSCRIBE_EMAIL_TEXT : string :=
  "This message was automatically generated by Omnivore.".

Definition sendUnsubscribeEmail (unsubscribeMailTo newsletterEmail : string)
  : M bool :=
  try_catch
    (parsed <- lift (parseUnsubscribeMailTo unsubscribeMailTo) ;;
     sent <- sendEmail {| mail_to := to parsed;
                          mail_subject := subject parsed;
                          mail_text := UNSUBSCRIBE_EMAIL_TEXT;
                          mail_from := newsletterEmail |} ;;
     if negb sent
     then log "Failed to send unsubscribe email" (LogString unsubscribeMailTo) ;;
          ret false
     else ret true)
    (fun error =>
       log "Failed to send unsubscribe email" (LogError error) ;;
       ret false).

Definition sendUnsubscribeHttpRequest (url : string) : M bool :=
  try_catch
    (axios_get url 5000 ;;
     ret true)
    (fun error =>
       match error with
       | AxiosError message =>
           log "Failed to send unsubscribe http request" (LogString message)
       | _ =>
           log "Failed to send unsubscribe http request" (LogError error)
       end ;;
       ret false).

Definition getSubscriptionByNameAndUserId (name userId : string)
  : M (option Subscription.t) :=
  Subscription_findOneBy name userId Newsletter.

Definition subscriptionData (input : SaveSubscriptionInput)
           (lastFetchedAt : Z) : SubscriptionData :=
  {| d_name := None; d_type := None; d_status := None;
     d_unsubscribeMailTo := in_unsubscribeMailTo input;
     d_unsubscribeHttpUrl := in_unsubscribeHttpUrl input;
     d_icon := in_icon input;
     d_lastFetchedAt := Some lastFetchedAt;
     d_user := None; d_newsletterEmail := None |}.

(** [{ ...subscriptionData, name, newsletterEmail, user, type }] *)
Definition new_newsletter_subscription (input : SaveSubscriptionInput)
           (lastFetchedAt : Z) : SubscriptionData :=
  let data := subscriptionData input lastFetchedAt in
  {| d_name := Some (in_name input);
     d_type := Some Newsletter;
     d_status := d_status data;
     d_unsubscribeMailTo := d_unsubscribeMailTo data;
     d_unsubscribeHttpUrl := d_unsubscribeHttpUrl data;
     d_icon := d_icon data;
     d_lastFetchedAt := d_lastFetchedAt data;
     d_user := Some (in_userId input);
     d_newsletterEmail :=
       Some (NewsletterEmail.id (in_newsletterEmail input)) |}.

Definition saveSubscription (input : SaveSubscriptionInput) : M string :=
  t <- read now ;;
  let lastFetchedAt := clock E t in
  existingSubscription <-
    getSubscriptionByNameAndUserId (in_name input) (in_userId input) ;;
  match existingSubscription with
  | Some existing =>
      (* update subscription if already exists *)
      Subscription_update (Subscription.id existing)
                          (subscriptionData input lastFetchedAt) ;;
      ret (Subscription.id existing)
  | None =>
      result <- Subscription_save
                  (new_newsletter_subscription input lastFetchedAt) ;;
      ret (Subscription.id result)
  end.

(** The attempt of [unsubscribe], the value of its [unsubscribed]. *)
Definition unsubscribe_attempt (subscription : Subscription.t) : M bool :=
  match Subscription.unsubscribeMailTo subscription,
        Subscription.newsletterEmail subscription with
  | Some mailTo, Some newsletterEmail =>
      if truthy (Some mailTo)
      then (* unsubscribe by sending email *)
        sendUnsubscribeEmail mailTo (NewsletterEmail.address newsletterEmail)
      else ret false
  | _, _ => ret false
  end.

Definition status_unsubscribed : SubscriptionData :=
  {| d_name := None; d_type := None; d_status := Some Unsubscribed;
     d_unsubscribeMailTo := None; d_unsubscribeHttpUrl := None;
     d_icon := None; d_lastFetchedAt := None;
     d_user := None; d_newsletterEmail := None |}.

Definition unsubscribe (subscription : Subscription.t)
  : M (option UpdateResult) :=
  returned <-
    match Subscription.type subscription with
    | Newsletter =>
        (* unsubscribe from newsletter *)
        unsubscribed <- unsubscribe_attempt subscription ;;
        if negb unsubscribed then
          (* update subscription status to unsubscribed if failed to unsubscribe *)
          log "Failed to unsubscribe" (LogString (Subscription.id subscription)) ;;
          result <- Subscription_update (Subscription.id subscription)
                                        status_unsubscribed ;;
          ret (Some result)
        else ret None
    | Rss => ret None
    end ;;
  match returned with
  | Some result => ret (Some result)    (* the early [return] *)
  | None =>
      (* delete the subscription if successfully unsubscribed or it's an rss feed *)
      Subscription_delete (Subscription.id subscription) ;;
      ret None
  end.

Definition unsubscribeAll (newsletterEmail : NewsletterEmail.t) : M unit :=
  try_catch
    (subscriptions <- Subscription_find
                        (NewsletterEmail.user newsletterEmail)
                        (NewsletterEmail.id newsletterEmail) ;;
     for_of subscriptions
            (fun subscription =>
               try_catch
                 (unsubscribe subscription ;; ret tt)
                 (fun error => log "Failed to unsubscribe" (LogError error))))
    (fun error => log "Failed to unsubscribe all" (LogError error)).

(** *** Signup handlers *)

Inductive Handler :=
| SubscribeHandler
| AxiosEssentialsHandler
| MorningBrewHandler
| MilkRoadHandler
| MoneyStuffHandler.

(** [encodeURIComponent]: every byte of the UTF-8 encoding is escaped, but
    for letters, digits and [- _ . ! ~ * ' ( )].  Strings are UTF-8 texts
    here, so the one input it raises on, a lone surrogate, does not occur. *)
Definition uri_unreserved (c : ascii) : bool :=
  let n := code c in
  ((65 <=? n) && (n <=? 90)) || ((97 <=? n) && (n <=? 122))
  || is_digit c
  || existsb (Ascii.eqb c) (chars "-_.!~*'()").

Definition encodeURIComponent (s : string) : string :=
  str (flat_map (fun c => if uri_unreserved c then [c]
                          else URL.percent_encode_byte c)
                (chars s)).

(** The request bodies are JSON texts, full of double quotes: [json t] is
    [t] with every ['] read as a double quote (the texts of the source hold
    no [']). *)
Definition double_quote : ascii := ascii_of_nat 34.

Definition json (t : string) : string :=
  str (map (fun c => if Ascii.eqb c "'"%char then double_quote else c) (chars t)).

Definition axios_essentials_body (email : string) : string :=
  json "{'lists':['newsletter_axiosam','newsletter_axiospm','newsletter_axiosfinishline'],'user_vars':{'source':'axios','medium':null,'campaign':null,'term':null,'content':null,'page':'webflow-newsletters-all'},'email':'"
  ++ email ++ json "'".

Definition morning_brew_body (email : string) : string :=
  json "{'operationName':'CreateUserSubscription','variables':{'signupCreateInput':{'email':'"
  ++ email
  ++ json "','kid':null,'gclid':null,'utmCampaign':'mb','utmMedium':'website','utmSource':'hero-module','utmContent':null,'utmTerm':null,'requestPath':'https://www.morningbrew.com/daily','uiModule':'hero-module'},'signupCreateVerticalSlug':'daily'},'query':'mutation CreateUserSubscription($signupCreateInput: SignupCreateInput!, $signupCreateVerticalSlug: String!) {\n  signupCreate(input: $signupCreateInput, verticalSlug: $signupCreateVerticalSlug) {\n    user {\n      accessToken\n      email\n      hasSeenOnboarding\n      referralCode\n      verticalSubscriptions {\n        isActive\n        vertical {\n          slug\n          __typename\n        }\n        __typename\n      }\n      __typename\n    }\n    isNewSubscription\n    fromAffiliate\n    subscriptionId\n    __typename\n  }\n}\n'}".

Definition _subscribe (h : Handler) (email : string) : M (list string) :=
  match h with
  | SubscribeHandler => ret []
  | AxiosEssentialsHandler =>
      axios_post "https://api.axios.com/api/render/readers/unauth-sub/"
                 {| data_headers_contentType := "application/json";
                    data_body := axios_essentials_body email |} ;;
      ret ["Axios AM"; "Axios PM"; "Axios Finish Line"]%string
  | MorningBrewHandler =>
      axios_post "https://singularity.morningbrew.com/graphql"
                 {| data_headers_contentType := "application/json";
                    data_body := morning_brew_body email |} ;;
      ret ["Morning Brew"]%string
  | MilkRoadHandler =>
      axios_post "https://www.milkroad.com/subscriptions"
                 {| data_headers_contentType :=
                      "application/x-www-form-urlencoded";
                    data_body := "email=" ++ encodeURIComponent email
                                 ++ "&commit=Subscribe" |} ;;
      ret ["Milk Road"]%string
  | MoneyStuffHandler =>
      axios_put ("https://login.bloomberg.com/api/newsletters/update?email="
                 ++ encodeURIComponent email
                 ++ "&source=&notify=true&optIn=false")
                {| data_headers_contentType := "application/json";
                   data_body := json "{'Money Stuff':true}" |} ;;
      ret ["Money Stuff"]%string
  end.

Definition new_subscription (name newsletterEmailId userId : string)
  : SubscriptionData :=
  {| d_name := Some name; d_type := None; d_status := Some Active;
     d_unsubscribeMailTo := None; d_unsubscribeHttpUrl := None;
     d_icon := None; d_lastFetchedAt := None;
     d_user := Some userId;
     d_newsletterEmail := Some newsletterEmailId |}.

(** The [try] block ends in [return Promise.all(newSubscriptions)], without
    [await]: the block hands the promise out and is left before the promise
    settles, so the promise is awaited by the caller, outside the [catch]. *)
Definition handleSubscribe (this : Handler) (userId name : string)
  : M (option (list Subscription.t)) :=
  returned <-
    try_catch
      (found <- NewsletterEmail_findOneBy userId ;;
       newsletterEmail <-
         match found with
         | Some e => ret e
         | None => createNewsletterEmail userId
         end ;;
       (* subscribe to newsletter service *)
       subscribedNames <-
         _subscribe this (NewsletterEmail.address newsletterEmail) ;;
       match subscribedNames with
       | [] =>
           log "Failed to get subscribe response" (LogString name) ;;
           ret (Ok None)
       | _ :: _ =>
           (* create new subscriptions in db *)
           newSubscriptions <-
             map_M (fun name =>
                      spawn (Subscription_save
                               (new_subscription
                                  name
                                  (NewsletterEmail.id newsletterEmail)
                                  userId)))
                   subscribedNames ;;
           ret (match Promise_all newSubscriptions with
                | Ok rows => Ok (Some rows)
                | Throw e => Throw e
                end)
       end)
      (fun error =>
         log "Failed to handleSubscribe" (LogError error) ;;
         ret (Ok None)) ;;
  await returned.

End Service.

(* ------------------------------------------------------------------ *)
(** ** The registry of signup handlers *)

Definition is_upper (c : ascii) : bool := (65 <=? code c) && (code c <=? 90).

Definition ascii_lower (c : ascii) : ascii :=
  if is_upper c then ascii_of_nat (code c + 32) else c.

(** [name.toLowerCase() === key], for a key made of ASCII characters none
    of which is an upper-case letter (the keys of the registry are).
    [toLowerCase] is the platform's, with Unicode's case mappings: the
    characters whose lower case is an ASCII character [k] are [k] itself,
    its upper-case letter, and for [k] the Kelvin sign U+212A (the bytes
    226, 132, 170); the lower case of any other character holds a character
    that is not ASCII. *)
Fixpoint lowercases_to (key name : list ascii) : bool :=
  match key, name with
  | [], [] => true
  | k :: key', c :: name' =>
      if is_upper k then false
      else if (ascii_lower c =? k)%char then lowercases_to key' name'
      else if (k =? "k")%char && (code c =? 226) then
        match name' with
        | c2 :: c3 :: name'' =>
            (code c2 =? 132) && (code c3 =? 170) && lowercases_to key' name''
        | _ => false
        end
      else false
  | _, _ => false
  end.

Definition getSubscribeHandler (name : string) : option Handler :=
  if lowercases_to (chars "axios_essentials") (chars name)
  then Some AxiosEssentialsHandler
  else if lowercases_to (chars "morning_brew") (chars name)
  then Some MorningBrewHandler
  else if lowercases_to (chars "milk_road") (chars name)
  then Some MilkRoadHandler
  else if lowercases_to (chars "money_stuff") (chars name)
  then Some MoneyStuffHandler
  else None.

(* ------------------------------------------------------------------ *)
(** ** Vocabulary of the statements *)

Definition is_http (e : Event) : bool :=
  match e with EvHttp _ => true | _ => false end.

Definition is_email (e : Event) : bool :=
  match e with EvSendEmail _ => true | _ => false end.

(** The status updates and the deletes of a trace. *)
Fixpoint updates (evs : list Event) : list (string * SubscriptionData) :=
  match evs with
  | [] => []
  | EvRepo (UpdateSubscription id d) :: evs' => (id, d) :: updates evs'
  | _ :: evs' => updates evs'
  end.

Fixpoint deletes (evs : list Event) : list string :=
  match evs with
  | [] => []
  | EvRepo (DeleteSubscription id) :: evs' => id :: deletes evs'
  | _ :: evs' => deletes evs'
  end.

(** [w] after the calls [evs] (most recent first), with the tables as given. *)
Definition after (evs : list Event) (rows : list Subscription.t) (w : World)
  : World :=
  {| subscriptions := rows;
     newsletter_emails := newsletter_emails w;
     trace := evs ++ trace w |}.

Definition get_request (url : string) : HttpRequest :=
    {| http_method := GET; http_url := url; http_timeout := Some 5000%Z;
       http_data := None |}.

Definition http_failure_detail (e : Error) : LogDetail :=
    match e with
    | AxiosError m => LogString m
    | _ => LogError e
    end.

Definition unsubscribe_message (parsed : ParsedMailTo) (from : string)
    : EmailMessage :=
    {| mail_to := to parsed; mail_subject := subject parsed;
       mail_text := UNSUBSCRIBE_EMAIL_TEXT; mail_from := from |}.

Definition failed_to_unsubscribe (sub : Subscription.t) : Event :=
    EvLog "Failed to unsubscribe" (LogString (Subscription.id sub)).

(** The ids the store is asked to update or delete, most recent first. *)
Fixpoint store_targets (evs : list Event) : list string :=
  match evs with
  | [] => []
  | EvRepo (UpdateSubscription id _) :: evs' => id :: store_targets evs'
  | EvRepo (DeleteSubscription id) :: evs' => id :: store_targets evs'
  | _ :: evs' => store_targets evs'
  end.

(** One turn of the loop of [unsubscribeAll]. *)
Definition unsubscribe_item (E : Env) (subscription : Subscription.t)
  : M unit :=
    try_catch
      (unsubscribe E subscription ;; ret tt)
      (fun error => log "Failed to unsubscribe" (LogError error)).

(** The rows the upsert looks for. *)
Definition count_matching (name userId : string)
           (rows : list Subscription.t) : nat :=
  length (filter (matches name userId Newsletter) rows).

(** The row the upsert inserts when no row matches. *)
Definition inserted_row (E : Env) (input : SaveSubscriptionInput)
           (w : World) : Subscription.t :=
  {| Subscription.id := generated_id E (S (now w));
     Subscription.name := in_name input;
     Subscription.type := Newsletter;
     Subscription.status := Active;
     Subscription.unsubscribeMailTo := in_unsubscribeMailTo input;
     Subscription.unsubscribeHttpUrl := in_unsubscribeHttpUrl input;
     Subscription.icon := in_icon input;
     Subscription.lastFetchedAt := Some (clock E (now w));
     Subscription.user := in_userId input;
     Subscription.newsletterEmailId :=
       Some (NewsletterEmail.id (in_newsletterEmail input));
     Subscription.newsletterEmail := None |}.

Definition lookup_of (input : SaveSubscriptionInput) : Event :=
  EvRepo (FindOneSubscription (in_name input) (in_userId input) Newsletter).

(** A character of an address that the URL parser reads as part of the
    authority and leaves in place: no control character, no space, and none
    of [/], [?] and [#]. *)
Definition address_char (c : ascii) : bool :=
  (32 <? code c) && negb (URL.ends_authority c).

(** A character of a query that the URL serializer leaves as it is. *)
Definition query_char (c : ascii) : bool :=
  negb (URL.in_query_percent_encode_set c).

(** The subject a query gives: its first [subject] parameter, decoded, when
    there is one and it is not empty. *)
Definition subject_of_query (q : list ascii) : string :=
  match URL.params_get (chars "subject") (URL.urlencoded_parse q) with
  | Some (c :: v) => str (c :: v)
  | Some [] | None => "Unsubscribe"%string
  end.

(** The invariant of the data model: (user, name, type) is unique. *)
Definition unique_keys (rows : list Subscription.t) : Prop :=
  NoDup (map Subscription.key rows).

(** The names a handler reports after its provider call. *)
Definition activated (h : Handler) : list string :=
  match h with
  | SubscribeHandler => []
  | AxiosEssentialsHandler => ["Axios AM"; "Axios PM"; "Axios Finish Line"]
  | MorningBrewHandler => ["Morning Brew"]
  | MilkRoadHandler => ["Milk Road"]
  | MoneyStuffHandler => ["Money Stuff"]
  end%string.

(** A row as the signup flow creates it. *)
Definition signed_up (userId newsletterEmailId : string) (s : Subscription.t)
  : Prop :=
  Subscription.status s = Active
  /\ Subscription.type s = Newsletter
  /\ Subscription.user s = userId
  /\ Subscription.newsletterEmailId s = Some newsletterEmailId.

Definition world_with (rows : list Subscription.t)
           (emails : list NewsletterEmail.t) (evs : list Event) (w : World)
  : World :=
  {| subscriptions := rows; newsletter_emails := emails;
     trace := evs ++ trace w |}.

(** The row [save] inserts. *)
Definition saved_row (E : Env) (data : SubscriptionData)
           (name user : string) (w : World) : Subscription.t :=
    {| Subscription.id := generated_id E (now w);
       Subscription.name := name;
       Subscription.type := or_else (d_type data) default_type;
       Subscription.status := or_else (d_status data) default_status;
       Subscription.unsubscribeMailTo := d_unsubscribeMailTo data;
       Subscription.unsubscribeHttpUrl := d_unsubscribeHttpUrl data;
       Subscription.icon := d_icon data;
       Subscription.lastFetchedAt := d_lastFetchedAt data;
       Subscription.user := user;
       Subscription.newsletterEmailId := d_newsletterEmail data;
       Subscription.newsletterEmail := None |}.

(* ------------------------------------------------------------------ *)
(** ** Sample data *)

Module Sample.

Definition mailbox : NewsletterEmail.t :=
  {| NewsletterEmail.id := "ne-1";
     NewsletterEmail.address := "reader-1@inbox.omnivore.app";
     NewsletterEmail.user := "user-1" |}.

Definition row (id name : string) (type : SubscriptionType)
           (mailTo : option string) : Subscription.t :=
  {| Subscription.id := id;
     Subscription.name := name;
     Subscription.type := type;
     Subscription.status := Active;
     Subscription.unsubscribeMailTo := mailTo;
     Subscription.unsubscribeHttpUrl := Some "https://example.com/unsubscribe"%string;
     Subscription.icon := None;
     Subscription.lastFetchedAt := None;
     Subscription.user := "user-1";
     Subscription.newsletterEmailId :=
       match type with
       | Newsletter => Some "ne-1"%string
       | Rss => None
       end;
     Subscription.newsletterEmail := None |}.

Definition newsletter : Subscription.t :=
  load_newsletterEmail
    [mailbox]
    (row "sub-1" "Weekly" Newsletter (Some "leave@example.com?subject=Stop"%string)).

Definition newsletter_not_loaded : Subscription.t :=
  row "sub-1" "Weekly" Newsletter (Some "leave@example.com?subject=Stop"%string).

Definition feed : Subscription.t := row "sub-2" "Feed" Rss None.

Definition world : World :=
  {| subscriptions :=
       [row "sub-1" "Weekly" Newsletter
            (Some "leave@example.com?subject=Stop"%string);
        row "sub-2" "Feed" Rss None;
      row "sub-3" "Digest" Newsletter None];
     newsletter_emails := [mailbox];
     trace := [] |}.

Definition id_of_time (t : nat) : string :=
  "sub-t" ++ NilEmpty.string_of_uint (Nat.to_uint t).

(** Every collaborator answers. *)
Definition env : Env :=
  {| sendEmail_outcome := fun _ _ => Ok true;
     axios_outcome := fun _ _ => None;
     repo_fault := fun _ _ => None;
     clock := fun t => Z.of_nat t;
     generated_id := id_of_time;
     createNewsletterEmail_outcome :=
       fun _ userId => Ok ("ne-" ++ userId, userId ++ "@inbox.omnivore.app")%string;
     unique_enforced := false |}.

(** The store raises on every update and delete of [sub-1]. *)
Definition sub_1_locked : Env :=
  {| sendEmail_outcome := sendEmail_outcome env;
     axios_outcome := axios_outcome env;
     repo_fault := fun _ op =>
                     match op with
                     | UpdateSubscription id _ | DeleteSubscription id =>
                         if String.eqb id "sub-1"
                         then Some (PersistenceError "row is locked")
                         else None
                     | _ => None
                     end;
     clock := clock env;
     generated_id := generated_id env;
     createNewsletterEmail_outcome := createNewsletterEmail_outcome env;
     unique_enforced := false |}.

End Sample.

Module SampleUpsert.

Definition input : SaveSubscriptionInput :=
  {| in_userId := "user-1";
     in_name := "Daily";
     in_newsletterEmail := Sample.mailbox;
     in_unsubscribeMailTo := Some "leave@daily.example"%string;
     in_unsubscribeHttpUrl := None;
     in_icon := None;
     in_from := None |}.

End SampleUpsert.

Module SampleSignup.


(** The store is unreachable when a row is saved. *)
Definition save_fails : Env :=
  {| sendEmail_outcome := sendEmail_outcome Sample.env;
     axios_outcome := axios_outcome Sample.env;
     repo_fault := fun _ op =>
                     match op with
                     | SaveSubscription _ =>
                         Some (PersistenceError "connection terminated")
                     | _ => None
                     end;
     clock := clock Sample.env;
     generated_id := generated_id Sample.env;
     createNewsletterEmail_outcome :=
       createNewsletterEmail_outcome Sample.env;
     unique_enforced := false |}.

Definition signup (E : Env) : M (option (list Subscription.t)) :=
  handleSubscribe E MorningBrewHandler "user-1" "morning_brew".



End SampleSignup.

(** The emails of a trace, most recent first. *)
Fixpoint emails_sent (evs : list Event) : list EmailMessage :=
  match evs with
  | [] => []
  | EvSendEmail m :: evs' => m :: emails_sent evs'
  | _ :: evs' => emails_sent evs'
  end.

(** What one call of [unsubscribe] on the subscription [id] can do to the
    table: nothing (the store raised), the delete, or the demotion. *)
Definition touched (id : string) (rows rows' : list Subscription.t) : Prop :=
  rows' = rows
  \/ rows' = filter (fun s => negb (has_id id s)) rows
  \/ rows' = map (update_row id status_unsubscribed) rows.

(** The same, when the store does not raise. *)
Definition settled (id : string) (rows rows' : list Subscription.t) : Prop :=
  rows' = filter (fun s => negb (has_id id s)) rows
  \/ rows' = map (update_row id status_unsubscribed) rows.

(** One step per id, in order. *)
Fixpoint steps (step : string -> list Subscription.t -> list Subscription.t -> Prop)
         (ids : list string) (rows rows' : list Subscription.t) : Prop :=
  match ids with
  | [] => rows' = rows
  | id :: ids' => exists mid, step id rows mid /\ steps step ids' mid rows'
  end.

(** The id of a row is one of [ids]. *)
Definition id_in (ids : list string) (s : Subscription.t) : bool :=
  existsb (String.eqb (Subscription.id s)) ids.

(** What the upsert never changes in a row. *)
Definition row_identity (s : Subscription.t)
  : string * (string * string * SubscriptionType) * SubscriptionStatus
    * option string :=
  (Subscription.id s, Subscription.key s, Subscription.status s,
   Subscription.newsletterEmailId s).

Definition is_repo (e : Event) : bool :=
  match e with EvRepo _ => true | _ => false end.

(** The entities the store was asked to save, most recent first. *)
Fixpoint saves (evs : list Event) : list SubscriptionData :=
  match evs with
  | [] => []
  | EvRepo (SaveSubscription data) :: evs' => data :: saves evs'
  | _ :: evs' => saves evs'
  end.

Definition is_provisioning (e : Event) : bool :=
  match e with EvCreateNewsletterEmail _ => true | _ => false end.

(** The values of the promises that were fulfilled. *)
Fixpoint fulfilled {A} (ps : list (Promise A)) : list A :=
  match ps with
  | [] => []
  | Ok a :: ps' => a :: fulfilled ps'
  | Throw _ :: ps' => fulfilled ps'
  end.

(** The first part of [handleSubscribe]: the user's address, looked up or
    provisioned. *)
Definition resolve_newsletterEmail (E : Env) (userId : string)
  : M NewsletterEmail.t :=
  found <- NewsletterEmail_findOneBy E userId ;;
  match found with
  | Some e => ret e
  | None => createNewsletterEmail E userId
  end.

(** The rest of the [try] block of [handleSubscribe], once the address is
    known: the provider call and the saves. *)
Definition create_subscriptions (E : Env) (this : Handler)
           (userId name : string) (newsletterEmail : NewsletterEmail.t)
  : M (Promise (option (list Subscription.t))) :=
  subscribedNames <-
    _subscribe E this (NewsletterEmail.address newsletterEmail) ;;
  match subscribedNames with
  | [] =>
      log "Failed to get subscribe response" (LogString name) ;;
      ret (Ok None)
  | _ :: _ =>
      newSubscriptions <-
        map_M (fun name =>
                 spawn (Subscription_save
                          E (new_subscription
                               name (NewsletterEmail.id newsletterEmail)
                               userId)))
              subscribedNames ;;
      ret (match Promise_all newSubscriptions with
           | Ok rows => Ok (Some rows)
           | Throw e => Throw e
           end)
  end.

Module SampleFailures.


End SampleFailures.


(** Two names that differ in the case of ASCII letters only. *)
Definition same_up_to_case (a b : string) : Prop :=
  Forall2 (fun x y => ascii_lower x = ascii_lower y) (chars a) (chars b).

(** Every collaborator answers: the store and the provider raise no error,
    and an address can be provisioned. *)
Definition answers (E : Env) : Prop :=
  (forall t op, repo_fault E t op = None)
  /\ (forall t r, axios_outcome E t r = None)
  /\ (forall t userId, exists created,
         createNewsletterEmail_outcome E t userId = Ok created).

(* ------------------------------------------------------------------ *)
(** * Proofs *)

Lemma after_nil w : after [] (subscriptions w) w = w.
Proof. destruct w; reflexivity. Qed.

Lemma after_after evs1 evs2 rows1 rows2 w :
  after evs2 rows2 (after evs1 rows1 w) = after (evs2 ++ evs1) rows2 w.
Proof. unfold after; cbn. now rewrite app_assoc. Qed.

Ltac run :=
  repeat (cbv beta iota delta
            [bind ret throw try_catch emit read lift log repo sendEmail axios
             axios_get axios_post axios_put set_subscriptions set_newsletter_emails
             await spawn] in *;
          cbn [fst snd trace subscriptions newsletter_emails] in * ).

Ltac splits :=
  repeat match goal with |- _ /\ _ => split end; auto.

Section Runs.
Variable E : Env.

Lemma sendUnsubscribeHttpRequest_run url w :
  sendUnsubscribeHttpRequest E url w
  = match axios_outcome E (now w) (get_request url) with
    | None => (Ok true, after [EvHttp (get_request url)] (subscriptions w) w)
    | Some e =>
        (Ok false,
         after [EvLog "Failed to send unsubscribe http request"
                      (http_failure_detail e);
                EvHttp (get_request url)] (subscriptions w) w)
    end.
Proof.
  unfold sendUnsubscribeHttpRequest, get_request, after. run.
  destruct (axios_outcome E _ _) as [e|]; [destruct e|]; reflexivity.
Qed.

Lemma sendUnsubscribeEmail_run mailTo from w :
  sendUnsubscribeEmail E mailTo from w
  = match parseUnsubscribeMailTo mailTo with
    | Throw e =>
        (Ok false,
         after [EvLog "Failed to send unsubscribe email" (LogError e)]
               (subscriptions w) w)
    | Ok parsed =>
        let m := unsubscribe_message parsed from in
        match sendEmail_outcome E (now w) m with
        | Ok true => (Ok true, after [EvSendEmail m] (subscriptions w) w)
        | Ok false =>
            (Ok false,
             after [EvLog "Failed to send unsubscribe email" (LogString mailTo);
                    EvSendEmail m] (subscriptions w) w)
        | Throw e =>
            (Ok false,
             after [EvLog "Failed to send unsubscribe email" (LogError e);
                    EvSendEmail m] (subscriptions w) w)
        end
    end.
Proof.
  unfold sendUnsubscribeEmail, unsubscribe_message, after. run.
  destruct (parseUnsubscribeMailTo mailTo) as [parsed|e]; [|reflexivity].
  destruct (sendEmail_outcome E _ _) as [[|]|e]; reflexivity.
Qed.

Lemma Subscription_delete_run id w :
  Subscription_delete E id w
  = match repo_fault E (now w) (DeleteSubscription id) with
    | Some e =>
        (Throw e, after [EvRepo (DeleteSubscription id)] (subscriptions w) w)
    | None =>
        (Ok tt, after [EvRepo (DeleteSubscription id)]
                      (filter (fun s => negb (has_id id s)) (subscriptions w))
                      w)
    end.
Proof.
  unfold Subscription_delete, after. run.
  destruct (repo_fault E _ _); reflexivity.
Qed.

Lemma Subscription_update_run id d w :
  Subscription_update E id d w
  = match repo_fault E (now w) (UpdateSubscription id d) with
    | Some e =>
        (Throw e, after [EvRepo (UpdateSubscription id d)] (subscriptions w) w)
    | None =>
        (Ok {| affected := length (filter (has_id id) (subscriptions w)) |},
         after [EvRepo (UpdateSubscription id d)]
               (map (update_row id d) (subscriptions w))
               w)
    end.
Proof.
  unfold Subscription_update, after. run.
  destruct (repo_fault E _ _); reflexivity.
Qed.

(** The attempt of [unsubscribe] never raises, touches no table and makes
    no store call and no HTTP call. *)
Lemma unsubscribe_attempt_run sub w :
  exists unsubscribed evs,
    unsubscribe_attempt E sub w
    = (Ok unsubscribed, after evs (subscriptions w) w)
    /\ updates evs = [] /\ deletes evs = []
    /\ filter is_http evs = []
    /\ (truthy (Subscription.unsubscribeMailTo sub) = false
        \/ Subscription.newsletterEmail sub = None ->
        unsubscribed = false /\ evs = []).
Proof.
  unfold unsubscribe_attempt.
  destruct (Subscription.unsubscribeMailTo sub) as [mailTo|];
    [destruct (Subscription.newsletterEmail sub) as [ne|]|].
  - destruct mailTo as [|c mailTo]; cbn [truthy].
    + exists false, []. rewrite after_nil. repeat split; auto.
    + rewrite sendUnsubscribeEmail_run.
      destruct (parseUnsubscribeMailTo _) as [parsed|e].
      * cbv zeta. destruct (sendEmail_outcome E _ _) as [[|]|e];
          eexists _, _; (split; [reflexivity|]); splits;
            intros [H|H]; discriminate.
      * eexists _, _; (split; [reflexivity|]); splits;
          intros [H|H]; discriminate.
  - exists false, []. rewrite after_nil. repeat split; auto.
  - exists false, []. rewrite after_nil. repeat split; auto.
Qed.


(** [unsubscribe] on a Newsletter subscription, after its attempt. *)
Lemma unsubscribe_newsletter_run sub w unsubscribed w1 :
  Subscription.type sub = Newsletter ->
  unsubscribe_attempt E sub w = (Ok unsubscribed, w1) ->
  unsubscribe E sub w
  = if unsubscribed then
      match repo_fault E (now w1) (DeleteSubscription (Subscription.id sub)) with
      | Some e =>
          (Throw e,
           after [EvRepo (DeleteSubscription (Subscription.id sub))]
                 (subscriptions w1) w1)
      | None =>
          (Ok None,
           after [EvRepo (DeleteSubscription (Subscription.id sub))]
                 (filter (fun s => negb (has_id (Subscription.id sub) s))
                         (subscriptions w1)) w1)
      end
    else
      let op := UpdateSubscription (Subscription.id sub) status_unsubscribed in
      match repo_fault E (S (now w1)) op with
      | Some e =>
          (Throw e,
           after [EvRepo op; failed_to_unsubscribe sub] (subscriptions w1) w1)
      | None =>
          (Ok (Some {| affected :=
                         length (filter (has_id (Subscription.id sub))
                                        (subscriptions w1)) |}),
           after [EvRepo op; failed_to_unsubscribe sub]
                 (map (update_row (Subscription.id sub) status_unsubscribed)
                      (subscriptions w1)) w1)
      end.
Proof.
  intros Hty Hatt. unfold unsubscribe. rewrite Hty.
  unfold bind at 1 2. rewrite Hatt.
  destruct unsubscribed; cbn [negb].
  - unfold ret at 1. unfold bind. rewrite Subscription_delete_run.
    destruct (repo_fault E _ _); reflexivity.
  - unfold bind, log, emit. rewrite Subscription_update_run.
    unfold now, after, failed_to_unsubscribe; cbn.
    destruct (repo_fault E _ _); reflexivity.
Qed.

Lemma unsubscribe_rss_run sub w :
  Subscription.type sub <> Newsletter ->
  unsubscribe E sub w
  = match repo_fault E (now w) (DeleteSubscription (Subscription.id sub)) with
    | Some e =>
        (Throw e,
         after [EvRepo (DeleteSubscription (Subscription.id sub))]
               (subscriptions w) w)
    | None =>
        (Ok None,
         after [EvRepo (DeleteSubscription (Subscription.id sub))]
               (filter (fun s => negb (has_id (Subscription.id sub) s))
                       (subscriptions w)) w)
    end.
Proof.
  intros Hty. unfold unsubscribe.
  destruct (Subscription.type sub); [congruence|].
  unfold bind, ret at 1. rewrite Subscription_delete_run.
  destruct (repo_fault E _ _); reflexivity.
Qed.

End Runs.

(* ------------------------------------------------------------------ *)
(** ** The unsubscribe-address parser *)

Lemma chars_append s1 s2 : chars (s1 ++ s2) = chars s1 ++ chars s2.
Proof.
  unfold chars. induction s1 as [|c s1 IH]; cbn; [reflexivity | now rewrite IH].
Qed.

Lemma str_chars s : str (chars s) = s.
Proof. apply string_of_list_ascii_of_string. Qed.

Lemma filter_all {A} (p : A -> bool) l :
  forallb p l = true -> filter p l = l.
Proof.
  induction l as [|a l IH]; cbn; auto.
  destruct (p a); cbn; [intros H; now rewrite IH | discriminate].
Qed.

Lemma take_while_all {A} (p : A -> bool) l :
  forallb p l = true -> take_while p l = l /\ drop_while p l = [].
Proof.
  induction l as [|a l IH]; cbn; auto.
  destruct (p a); cbn; [|discriminate].
  intros H. destruct (IH H) as [-> ->]. auto.
Qed.

Lemma take_while_stop {A} (p : A -> bool) l c rest :
  forallb p l = true -> p c = false ->
  take_while p (l ++ c :: rest) = l /\ drop_while p (l ++ c :: rest) = c :: rest.
Proof.
  intros Hl Hc. induction l as [|a l IH]; cbn in *.
  - now rewrite Hc.
  - destruct (p a); cbn in *; [|discriminate].
    destruct (IH Hl) as [-> ->]. auto.
Qed.

Lemma forallb_impl {A} (p q : A -> bool) l :
  (forall a, p a = true -> q a = true) ->
  forallb p l = true -> forallb q l = true.
Proof.
  intros Hpq. induction l as [|a l IH]; cbn; auto.
  destruct (p a) eqn:Hp; cbn; [|discriminate].
  intros H. now rewrite (Hpq a Hp), IH.
Qed.

Lemma drop_while_head {A} (p : A -> bool) l :
  forallb (fun a => negb (p a)) l = true -> drop_while p l = l.
Proof.
  destruct l as [|a l]; cbn; auto.
  destruct (p a); cbn; [discriminate | auto].
Qed.

Lemma forallb_rev {A} (p : A -> bool) l :
  forallb p l = true -> forallb p (rev l) = true.
Proof.
  rewrite !forallb_forall. intros H a Ha. apply H. now apply in_rev.
Qed.

(** Input without control characters and spaces goes through the clean-up
    of the URL parser unchanged. *)
Lemma clean_visible l :
  forallb (fun c => 32 <? code c) l = true -> URL.clean l = l.
Proof.
  intros H. unfold URL.clean.
  rewrite drop_while_head.
  - rewrite rev_involutive. apply filter_all.
    revert H. apply forallb_impl. intros c Hc.
    unfold URL.is_ascii_tab_or_newline.
    apply Nat.ltb_lt in Hc.
    destruct (Nat.eqb_spec (code c) 9), (Nat.eqb_spec (code c) 10),
      (Nat.eqb_spec (code c) 13); cbn; auto; lia.
  - apply forallb_rev. revert H. apply forallb_impl. intros c Hc.
    unfold URL.is_c0_control_or_space.
    apply Nat.ltb_lt in Hc. apply negb_true_iff, Nat.leb_gt. exact Hc.
Qed.

Lemma query_char_visible c : query_char c = true -> (32 <? code c) = true.
Proof.
  unfold query_char, URL.in_query_percent_encode_set. intros H.
  apply negb_true_iff in H. apply orb_false_iff in H as [H _].
  apply orb_false_iff in H as [H _]. apply Nat.leb_gt in H.
  now apply Nat.ltb_lt.
Qed.

Lemma query_char_not_hash c :
  query_char c = true -> negb (c =? "#")%char = true.
Proof.
  unfold query_char, URL.in_query_percent_encode_set. intros H.
  destruct (Ascii.eqb_spec c "#"); [subst c; discriminate | reflexivity].
Qed.

Lemma percent_encode_query_plain q :
  forallb query_char q = true -> URL.percent_encode_query q = q.
Proof.
  unfold URL.percent_encode_query, query_char.
  induction q as [|c q IH]; cbn; auto.
  destruct (URL.in_query_percent_encode_set c); cbn; [discriminate|].
  intros H. now rewrite IH.
Qed.

Lemma is_prefix_refl p : is_prefix p p = true.
Proof. induction p as [|c p IH]; cbn; auto. now rewrite Ascii.eqb_refl. Qed.

Lemma remove_first_suffix q a :
  forallb (fun c => negb (c =? "?")%char) a = true ->
  remove_first ("?"%char :: q) (a ++ "?"%char :: q) = a.
Proof.
  induction a as [|c a IH]; intros Ha.
  - change ([] ++ "?"%char :: q) with ("?"%char :: q).
    cbn [remove_first]. rewrite is_prefix_refl.
    rewrite skipn_all. reflexivity.
  - cbn in Ha. apply andb_true_iff in Ha as [Hc Ha].
    cbn [app remove_first is_prefix].
    apply negb_true_iff in Hc. rewrite Ascii.eqb_sym, Hc. cbn.
    now rewrite IH.
Qed.

Lemma remove_first_nil l : remove_first [] l = l.
Proof. destruct l; reflexivity. Qed.

Lemma address_char_spec c :
  address_char c = true ->
  (32 <? code c) = true
  /\ negb (URL.ends_authority c) = true
  /\ negb (c =? "?")%char = true.
Proof.
  unfold address_char, URL.ends_authority. intros H.
  apply andb_true_iff in H as [H1 H2]. splits.
  destruct (c =? "?")%char; [|reflexivity].
  rewrite orb_true_r in H2. discriminate.
Qed.

(** The URL of an address without a query. *)
Lemma parse_mailto_address a :
  forallb address_char a = true ->
  URL.parse_mailto a
  = if URL.authority_valid a then Some {| URL.query := None |} else None.
Proof.
  intros Ha. unfold URL.parse_mailto. cbv zeta.
  rewrite clean_visible
    by (revert Ha; apply forallb_impl; intros c Hc; apply address_char_spec, Hc).
  destruct (take_while_all (fun c => negb (URL.ends_authority c)) a) as [-> ->].
  { revert Ha. apply forallb_impl. intros c Hc. apply address_char_spec, Hc. }
  reflexivity.
Qed.

(** The URL of an address followed by a query the serializer leaves alone. *)
Lemma parse_mailto_address_query a q :
  forallb address_char a = true ->
  forallb query_char q = true ->
  URL.parse_mailto (a ++ "?"%char :: q)
  = if URL.authority_valid a then Some {| URL.query := Some q |} else None.
Proof.
  intros Ha Hq. unfold URL.parse_mailto. cbv zeta.
  rewrite clean_visible.
  2:{ rewrite forallb_app. cbn. apply andb_true_iff. split.
      - revert Ha. apply forallb_impl. intros c Hc. apply address_char_spec, Hc.
      - revert Hq. apply forallb_impl. exact query_char_visible. }
  destruct (take_while_stop (fun c => negb (URL.ends_authority c)) a "?"%char q)
    as [-> ->]; [|reflexivity|].
  { revert Ha. apply forallb_impl. intros c Hc. apply address_char_spec, Hc. }
  unfold URL.parse_after_authority. cbn [drop_while].
  change (negb (URL.is_query_or_fragment_start "?")) with false. cbv iota.
  change ("?" =? "?")%char with true. cbv iota.
  destruct (take_while_all (fun c => negb (c =? "#")%char) q) as [-> _].
  { revert Hq. apply forallb_impl. exact query_char_not_hash. }
  now rewrite percent_encode_query_plain.
Qed.

Lemma after_last_at_none l :
  existsb URL.forbidden_host_code_point l = false ->
  URL.after_last_at l = None.
Proof.
  induction l as [|c l IH]; cbn; auto.
  intros H. apply orb_false_iff in H as [Hc Hl]. rewrite (IH Hl).
  destruct (Ascii.eqb_spec c "@"); [subst c; discriminate | reflexivity].
Qed.

Lemma after_last_at_domain local domain :
  existsb URL.forbidden_host_code_point domain = false ->
  URL.after_last_at (local ++ "@"%char :: domain) = Some domain.
Proof.
  intros Hd. induction local as [|c local IH]; cbn.
  - now rewrite (after_last_at_none _ Hd).
  - cbn in IH. now rewrite IH.
Qed.

Lemma split_host_port_opaque inside h :
  existsb URL.forbidden_host_code_point h = false ->
  URL.split_host_port inside h = (h, None).
Proof.
  revert inside. induction h as [|c h IH]; intros inside; cbn; auto.
  intros H. apply orb_false_iff in H as [Hc Hh].
  destruct (Ascii.eqb_spec c ":"); [subst c; discriminate|]. cbn.
  now rewrite (IH _ Hh).
Qed.

(** An address [local@domain] whose domain is not empty and holds no
    forbidden host code point is accepted by the URL parser. *)
Lemma authority_valid_domain local domain :
  domain <> [] ->
  existsb URL.forbidden_host_code_point domain = false ->
  URL.authority_valid (local ++ "@"%char :: domain) = true.
Proof.
  intros Hne Hd. unfold URL.authority_valid.
  rewrite (after_last_at_domain _ _ Hd).
  destruct domain as [|c domain]; [congruence|].
  unfold URL.hostport_valid. rewrite (split_host_port_opaque _ _ Hd).
  unfold URL.host_valid.
  destruct (Ascii.eqb_spec c "[").
  - subst c. cbn in Hd. discriminate.
  - now rewrite Hd.
Qed.

Lemma includes_at local domain :
  includes (local ++ "@"%char :: domain) "@" = true.
Proof.
  unfold includes. rewrite existsb_app. cbn. apply orb_true_r.
Qed.

(** C7 (as amended): take an address without control characters, spaces,
    [/], [?] and [#], alone or followed by [?] and a non-empty query made of
    characters the URL serializer leaves as they are.  When the URL
    constructor accepts the address (it accepts every [local@domain] whose
    domain is not empty and holds no forbidden host code point),
    [parseUnsubscribeMailTo] returns the address as [to], with the subject
    the decoded [subject] parameter of the query when there is one and it is
    not empty and "Unsubscribe" otherwise, unless the address holds no [@]
    (an empty one holds none): then it raises the invalid-address error with
    the input.  When the constructor refuses the address, its own error is
    raised.  The function is pure. *)
Theorem C7_parseUnsubscribeMailTo (address query : string) :
  forallb address_char (chars address) = true ->
  forallb query_char (chars query) = true ->
  query <> ""%string ->
  let outcome (input subject : string) : Result ParsedMailTo :=
    if URL.authority_valid (chars address) then
      if includes (chars address) "@"
      then Ok {| to := address; subject := subject |}
      else Throw (InvalidUnsubscribeAddress input)
    else Throw (InvalidURL ("mailto://" ++ input)) in
  parseUnsubscribeMailTo address = outcome address "Unsubscribe"%string
  /\ parseUnsubscribeMailTo (address ++ "?" ++ query)
     = outcome (address ++ "?" ++ query)%string
               (subject_of_query (chars query))
  /\ (forall local domain,
         chars address = local ++ "@"%char :: domain ->
         domain <> [] ->
         existsb URL.forbidden_host_code_point domain = false ->
         URL.authority_valid (chars address) = true
         /\ includes (chars address) "@" = true).
Proof.
  intros Ha Hq Hne. cbv zeta. split; [|split].
  - unfold parseUnsubscribeMailTo.
    rewrite (parse_mailto_address _ Ha).
    destruct (URL.authority_valid (chars address)); [|reflexivity].
    unfold URL.search; cbn [URL.query]. rewrite remove_first_nil.
    destruct (includes (chars address) "@") eqn:Hat.
    + destruct (chars address) as [|c a] eqn:Hchars; [discriminate|].
      cbn [orb negb]. rewrite <- Hchars, str_chars. reflexivity.
    + destruct (chars address); reflexivity.
  - unfold parseUnsubscribeMailTo.
    rewrite !chars_append. change (chars "?") with ["?"%char].
    change (["?"%char] ++ chars query) with ("?"%char :: chars query).
    rewrite (parse_mailto_address_query _ _ Ha Hq).
    destruct (URL.authority_valid (chars address)); [|reflexivity].
    unfold URL.search, URL.searchParams_get; cbn [URL.query].
    destruct (chars query) as [|c q] eqn:Hchars.
    { exfalso. apply Hne. rewrite <- (str_chars query), Hchars. reflexivity. }
    rewrite remove_first_suffix
      by (revert Ha; apply forallb_impl; intros x Hx; apply address_char_spec, Hx).
    fold (subject_of_query (c :: q)).
    destruct (includes (chars address) "@") eqn:Hat.
    + destruct (chars address) as [|c' a] eqn:Haddr; [discriminate|].
      cbn [orb negb]. rewrite <- Haddr, str_chars. reflexivity.
    + destruct (chars address); reflexivity.
  - intros local domain Haddr Hdom Hforbidden. rewrite Haddr. split.
    + now apply authority_valid_domain.
    + apply includes_at.
Qed.

Lemma C7_parseUnsubscribeMailTo_witness :
  parseUnsubscribeMailTo "user@example.com"
  = Ok {| to := "user@example.com"; subject := "Unsubscribe" |}
  /\ parseUnsubscribeMailTo "user@example.com?subject=Bye"
     = Ok {| to := "user@example.com"; subject := "Bye" |}.
Proof.
  destruct (C7_parseUnsubscribeMailTo
              "user@example.com" "subject=Bye" eq_refl eq_refl)
    as (H1 & H2 & _).
  - discriminate.
  - split; [exact H1 | exact H2].
Defined.

(** C7 as stated fails on an input whose query holds a space and an empty
    [subject]: the query is not stripped from [to], because [search] holds
    the query percent-encoded ([?subject=&list=a%20b]) and that text does not
    occur in the input; and the subject is the default although the
    [subject] parameter is present. *)
Lemma C7_query_not_stripped :
  exists parsed,
    parseUnsubscribeMailTo "user@example.com?subject=&list=a b" = Ok parsed
    /\ to parsed = "user@example.com?subject=&list=a b"%string
    /\ to parsed <> "user@example.com"%string
    /\ URL.params_get (chars "subject")
                      (URL.urlencoded_parse (chars "subject=&list=a b"))
       = Some []
    /\ subject parsed = "Unsubscribe"%string.
Proof.
  eexists. split; [reflexivity|]. cbn. splits. discriminate.
Qed.

(** A query with a space in it stays in [to]. *)
Example parse_query_with_space :
  parseUnsubscribeMailTo "user@example.com?subject=Hello World"
  = Ok {| to := "user@example.com?subject=Hello World";
          subject := "Hello World" |}.
Proof. reflexivity. Qed.

(** The examples of the specification. *)
Example parse_with_subject :
  parseUnsubscribeMailTo "user@example.com?subject=Bye"
  = Ok {| to := "user@example.com"; subject := "Bye" |}.
Proof. reflexivity. Qed.

Example parse_without_query :
  parseUnsubscribeMailTo "user@example.com"
  = Ok {| to := "user@example.com"; subject := "Unsubscribe" |}.
Proof. reflexivity. Qed.

Example parse_nodomain :
  parseUnsubscribeMailTo "nodomain"
  = Throw (InvalidUnsubscribeAddress "nodomain").
Proof. reflexivity. Qed.

(** A [subject] parameter that is present and empty gives the default. *)
Example parse_empty_subject :
  parseUnsubscribeMailTo "user@example.com?subject="
  = Ok {| to := "user@example.com"; subject := "Unsubscribe" |}.
Proof. reflexivity. Qed.

(** An empty query leaves its question mark in the address. *)
Example parse_empty_query :
  parseUnsubscribeMailTo "user@example.com?"
  = Ok {| to := "user@example.com?"; subject := "Unsubscribe" |}.
Proof. reflexivity. Qed.

(** An address the URL constructor refuses raises the constructor's error. *)
Example parse_host_missing :
  parseUnsubscribeMailTo "user@" = Throw (InvalidURL "mailto://user@").
Proof. reflexivity. Qed.

(** An address without [@] goes through when an unstripped query holds one. *)
Example parse_at_in_unstripped_query :
  parseUnsubscribeMailTo "nodomain?subject=a@b c"
  = Ok {| to := "nodomain?subject=a@b c"; subject := "a@b c" |}.
Proof. reflexivity. Qed.

(* ------------------------------------------------------------------ *)
(** ** The unsubscribe orchestrator *)



(** C2: on a subscription that is not a Newsletter (an Rss feed),
    [unsubscribe] makes one call only, the delete of the row: no email is
    sent and no HTTP request is made. *)
Theorem C2_unsubscribe_rss E sub w :
  Subscription.type sub <> Newsletter ->
  exists evs r rows',
    unsubscribe E sub w = (r, after evs rows' w)
    /\ evs = [EvRepo (DeleteSubscription (Subscription.id sub))]
    /\ filter is_email evs = [] /\ filter is_http evs = []
    /\ match repo_fault E (now w) (DeleteSubscription (Subscription.id sub)) with
       | None =>
           r = Ok None
           /\ rows' = filter (fun s => negb (has_id (Subscription.id sub) s))
                             (subscriptions w)
       | Some e => r = Throw e /\ rows' = subscriptions w
       end.
Proof.
  intros Hty. rewrite (unsubscribe_rss_run E sub w Hty).
  destruct (repo_fault E _ _) as [e|];
    eexists _, _, _; (split; [reflexivity|]); splits.
Qed.

Lemma C2_unsubscribe_rss_witness :
  unsubscribe Sample.env Sample.feed Sample.world
  = (Ok None,
     after [EvRepo (DeleteSubscription "sub-2")]
                      [Sample.row "sub-1" "Weekly" Newsletter
                       (Some "leave@example.com?subject=Stop"%string);
            Sample.row "sub-3" "Digest" Newsletter None]
           Sample.world).
Proof.
  destruct (@C2_unsubscribe_rss Sample.env Sample.feed Sample.world)
    as (evs & r & rows' & Hrun & Hevs & _ & _ & Hr & Hrows).
  - discriminate.
  - rewrite Hrun, Hevs, Hr, Hrows. reflexivity.
Defined.

(** C9: whatever the subscription (with or without [unsubscribeHttpUrl]) and
    whatever the email attempt does, [unsubscribe] makes no HTTP request. *)
Theorem C9_unsubscribe_never_http E sub w :
  exists evs r rows',
    unsubscribe E sub w = (r, after evs rows' w)
    /\ filter is_http evs = [].
Proof.
  destruct (Subscription.type sub) eqn:Hty.
  - destruct (unsubscribe_attempt_run E sub w)
      as (unsubscribed & attempt & Hatt & _ & _ & Hhttp & _).
    rewrite (unsubscribe_newsletter_run E sub w _ _ Hty Hatt).
    destruct unsubscribed; cbv zeta;
      destruct (repo_fault E _ _); rewrite after_after;
        eexists _, _, _; (split; [reflexivity|]); cbn; exact Hhttp.
  - rewrite (unsubscribe_rss_run E sub w) by congruence.
    destruct (repo_fault E _ _); eexists _, _, _; split; reflexivity.
Qed.

(** C10: on a Newsletter subscription whose [unsubscribeMailTo] is set while
    its [newsletterEmail] relation is not loaded, [unsubscribe] sends no
    email: it logs, and asks the store to set the status to Unsubscribed; the
    row is not deleted. *)
Theorem C10_unsubscribe_relation_absent E sub w mailTo :
  Subscription.type sub = Newsletter ->
  Subscription.unsubscribeMailTo sub = Some mailTo ->
  Subscription.newsletterEmail sub = None ->
  exists r rows',
    unsubscribe E sub w
    = (r, after [EvRepo (UpdateSubscription (Subscription.id sub)
                                            status_unsubscribed);
                 failed_to_unsubscribe sub] rows' w)
    /\ match repo_fault E (S (now w))
               (UpdateSubscription (Subscription.id sub) status_unsubscribed) with
       | None =>
           (exists result, r = Ok (Some result))
           /\ rows' = map (update_row (Subscription.id sub) status_unsubscribed)
                           (subscriptions w)
       | Some e => r = Throw e /\ rows' = subscriptions w
       end.
Proof.
  intros Hty Hmail Hrel.
  assert (Hatt : unsubscribe_attempt E sub w = (Ok false, w)).
  { unfold unsubscribe_attempt. rewrite Hmail, Hrel. reflexivity. }
  rewrite (unsubscribe_newsletter_run E sub w _ _ Hty Hatt). cbv zeta.
  destruct (repo_fault E _ _) as [e|];
    eexists _, _; (split; [reflexivity|]); splits. eauto.
Qed.

Lemma C10_unsubscribe_relation_absent_witness :
  exists r rows',
    unsubscribe Sample.env Sample.newsletter_not_loaded Sample.world
    = (r, after [EvRepo (UpdateSubscription "sub-1" status_unsubscribed);
                 failed_to_unsubscribe Sample.newsletter_not_loaded]
                rows' Sample.world)
    /\ (exists result, r = Ok (Some result))
    /\ map Subscription.status rows' = [Unsubscribed; Active; Active].
Proof.
  destruct (@C10_unsubscribe_relation_absent
              Sample.env Sample.newsletter_not_loaded Sample.world
              "leave@example.com?subject=Stop" eq_refl eq_refl eq_refl)
    as (r & rows' & Hrun & Hr & Hrows).
  exists r, rows'. split; [exact Hrun|]. split; [exact Hr|].
  rewrite Hrows. reflexivity.
Defined.

(* ------------------------------------------------------------------ *)
(** ** The unsubscribe executors *)

(** C8: neither executor raises; each returns a boolean.  The email executor
    returns true exactly when the address parses and [sendEmail] answers
    true (a parse failure sends nothing; a false answer or an error of
    [sendEmail] gives false).  The HTTP executor makes one request, a GET of
    the url with a timeout of 5000 ms, and returns true exactly when that
    request raises no error. *)
Theorem C8_executors_never_raise E mailTo from url w :
  (exists sent evs,
      sendUnsubscribeEmail E mailTo from w
      = (Ok sent, after evs (subscriptions w) w)
      /\ (sent = true <->
          exists parsed,
            parseUnsubscribeMailTo mailTo = Ok parsed
            /\ sendEmail_outcome E (now w) (unsubscribe_message parsed from)
               = Ok true)
      /\ (forall e, parseUnsubscribeMailTo mailTo = Throw e ->
                    sent = false /\ filter is_email evs = []))
  /\ (exists ok evs,
         sendUnsubscribeHttpRequest E url w
         = (Ok ok, after evs (subscriptions w) w)
         /\ filter is_http evs
            = [EvHttp {| http_method := GET; http_url := url;
                         http_timeout := Some 5000%Z;
                         http_data := None |}]
         /\ (ok = true <->
             axios_outcome E (now w)
                           {| http_method := GET; http_url := url;
                              http_timeout := Some 5000%Z;
                              http_data := None |}
             = None)).
Proof.
  split.
  - rewrite sendUnsubscribeEmail_run.
    destruct (parseUnsubscribeMailTo mailTo) as [parsed|e].
    + cbv zeta. destruct (sendEmail_outcome E _ _) as [[|]|e] eqn:Hsend;
        eexists _, _; (split; [reflexivity|]); (split; [|discriminate]);
          (split; [try discriminate; intros _; exists parsed; auto|]).
      * auto.
      * intros (p & Hp & Hs). injection Hp as <-. congruence.
      * intros (p & Hp & Hs). injection Hp as <-. congruence.
    + eexists _, _; (split; [reflexivity|]). split.
      * split; [discriminate|]. intros (p & Hp & _). discriminate.
      * auto.
  - rewrite sendUnsubscribeHttpRequest_run. fold (get_request url).
    destruct (axios_outcome E _ _) as [e|];
      eexists _, _; (split; [reflexivity|]); (split; [reflexivity|]);
        split; congruence.
Qed.

(* ------------------------------------------------------------------ *)
(** ** The bulk unsubscribe orchestrator *)

Lemma store_targets_app evs1 evs2 :
  store_targets (evs1 ++ evs2) = store_targets evs1 ++ store_targets evs2.
Proof.
  induction evs1 as [|[| | |[]|] evs1 IH]; cbn; auto; now rewrite IH.
Qed.

Section Bulk.
Variable E : Env.

Lemma unsubscribe_attempt_targets sub w :
  exists unsubscribed evs,
    unsubscribe_attempt E sub w
    = (Ok unsubscribed, after evs (subscriptions w) w)
    /\ store_targets evs = [].
Proof.
  unfold unsubscribe_attempt.
  destruct (Subscription.unsubscribeMailTo sub) as [mailTo|];
    [destruct (Subscription.newsletterEmail sub) as [ne|]|];
    try (exists false, []; rewrite after_nil; split; reflexivity).
  destruct (truthy (Some mailTo));
    [|exists false, []; rewrite after_nil; split; reflexivity].
  rewrite sendUnsubscribeEmail_run.
  destruct (parseUnsubscribeMailTo _) as [parsed|e];
    [cbv zeta; destruct (sendEmail_outcome E _ _) as [[|]|e]|];
    eexists _, _; split; reflexivity.
Qed.

(** One call of [unsubscribe] makes one store call on the subscription,
    whether it returns or raises. *)
Lemma unsubscribe_targets sub w :
  exists evs r rows',
    unsubscribe E sub w = (r, after evs rows' w)
    /\ store_targets evs = [Subscription.id sub].
Proof.
  destruct (Subscription.type sub) eqn:Hty.
  - destruct (unsubscribe_attempt_targets sub w)
      as (unsubscribed & attempt & Hatt & Htargets).
    rewrite (unsubscribe_newsletter_run E sub w _ _ Hty Hatt).
    destruct unsubscribed; cbv zeta;
      destruct (repo_fault E _ _); rewrite after_after;
        eexists _, _, _; (split; [reflexivity|]);
          rewrite store_targets_app, Htargets; reflexivity.
  - rewrite (unsubscribe_rss_run E sub w) by congruence.
    destruct (repo_fault E _ _); eexists _, _, _; split; reflexivity.
Qed.

Lemma unsubscribe_item_run sub w :
  exists evs rows',
    unsubscribe_item E sub w = (Ok tt, after evs rows' w)
    /\ store_targets evs = [Subscription.id sub].
Proof.
  destruct (unsubscribe_targets sub w) as (evs & r & rows' & Hrun & Ht).
  unfold unsubscribe_item, try_catch, bind. rewrite Hrun.
  destruct r as [r|e].
  - exists evs, rows'. split; [reflexivity | exact Ht].
  - exists (EvLog "Failed to unsubscribe" (LogError e) :: evs), rows'.
    split; [reflexivity | exact Ht].
Qed.

Lemma for_of_unsubscribe_run subs : forall w,
  exists evs rows',
    for_of subs (unsubscribe_item E) w = (Ok tt, after evs rows' w)
    /\ rev (store_targets evs) = map Subscription.id subs.
Proof.
  induction subs as [|sub subs IH]; intros w.
  - exists [], (subscriptions w). rewrite after_nil. split; reflexivity.
  - destruct (unsubscribe_item_run sub w) as (evs1 & rows1 & Hrun1 & Ht1).
    destruct (IH (after evs1 rows1 w)) as (evs2 & rows2 & Hrun2 & Ht2).
    exists (evs2 ++ evs1), rows2. split.
    + cbn [for_of]. unfold bind at 1. rewrite Hrun1, Hrun2.
      now rewrite after_after.
    + rewrite store_targets_app, rev_app_distr, Ht1, Ht2. reflexivity.
Qed.

Lemma map_id_load emails rows :
  map Subscription.id (map (load_newsletterEmail emails) rows)
  = map Subscription.id rows.
Proof. rewrite map_map. reflexivity. Qed.

End Bulk.

(** C6: [unsubscribeAll] always returns.  When the store raises on the fetch
    of the list, the error is logged and nothing else happens.  Otherwise
    every subscription bound to the address gets its one store call (the
    status update or the delete of [unsubscribe]), in the order of the list,
    whichever of these calls raise. *)
Theorem C6_unsubscribeAll_never_raises E newsletterEmail w :
  exists evs rows',
    unsubscribeAll E newsletterEmail w = (Ok tt, after evs rows' w)
    /\ match repo_fault E (now w)
               (FindSubscriptions (NewsletterEmail.user newsletterEmail)
                                  (NewsletterEmail.id newsletterEmail)) with
       | Some e => store_targets evs = [] /\ rows' = subscriptions w
       | None =>
           rev (store_targets evs)
           = map Subscription.id
                 (filter (bound_to (NewsletterEmail.user newsletterEmail)
                                   (NewsletterEmail.id newsletterEmail))
                         (subscriptions w))
       end.
Proof.
  unfold unsubscribeAll, Subscription_find. fold (unsubscribe_item E).
  unfold try_catch, bind at 1 2, repo, bind at 1 2, read, emit.
  destruct (repo_fault E (now w) _) as [e|].
  - cbn. eexists [_; _], (subscriptions w). split; [reflexivity|]. auto.
  - cbn.
    match goal with
    | |- context [for_of ?subs _ ?w1] =>
        destruct (for_of_unsubscribe_run E subs w1)
          as (evs & rows' & Hrun & Ht)
    end.
    rewrite Hrun. rewrite map_id_load in Ht. cbn in Ht.
    exists (evs ++ [EvRepo (FindSubscriptions
                              (NewsletterEmail.user newsletterEmail)
                              (NewsletterEmail.id newsletterEmail))]), rows'.
    split.
    + unfold after; cbn. now rewrite <- app_assoc.
        + rewrite store_targets_app. cbn. rewrite app_nil_r. exact Ht.
Qed.

(** One item that fails does not stop the batch: the delete of [sub-1] is
    refused by the store and logged, and [sub-3] is still demoted. *)
Example unsubscribeAll_isolates_failure :
  let result := unsubscribeAll Sample.sub_1_locked Sample.mailbox Sample.world in
  fst result = Ok tt
  /\ map (fun s => (Subscription.id s, Subscription.status s))
         (subscriptions (snd result))
     = [("sub-1", Active); ("sub-2", Active); ("sub-3", Unsubscribed)]%string
  /\ rev (store_targets (trace (snd result))) = ["sub-1"; "sub-3"]%string.
Proof. vm_compute. splits. Qed.

(* ------------------------------------------------------------------ *)
(** ** The upsert *)

Lemma find_none_existsb {A} (p : A -> bool) l :
  find p l = None -> existsb p l = false.
Proof.
  induction l as [|a l IH]; cbn; auto.
  destruct (p a); [discriminate | auto].
Qed.

Lemma find_none_filter {A} (p : A -> bool) l :
  find p l = None -> filter p l = [].
Proof.
  induction l as [|a l IH]; cbn; auto.
  destruct (p a); [discriminate | auto].
Qed.

Lemma find_some_filter {A} (p : A -> bool) l a :
  find p l = Some a -> 1 <= length (filter p l) /\ p a = true.
Proof.
  induction l as [|b l IH]; cbn; [discriminate|].
  destruct (p b) eqn:Hb.
  - intros [= <-]. cbn. split; [lia | exact Hb].
  - exact IH.
Qed.

Section Upsert.
Variable E : Env.
Variables (input : SaveSubscriptionInput) (lastFetchedAt : Z).

Let data : SubscriptionData := subscriptionData input lastFetchedAt.

(** The update of the upsert leaves the key of a row alone. *)
Lemma matches_update_row name userId type id s :
  matches name userId type (update_row id data s)
  = matches name userId type s.
Proof. unfold update_row. destruct (has_id id s); reflexivity. Qed.

Lemma id_update_row id s :
  Subscription.id (update_row id data s) = Subscription.id s.
Proof. unfold update_row. destruct (has_id id s); reflexivity. Qed.

Lemma filter_map_update_row name userId type id rows :
  filter (matches name userId type) (map (update_row id data) rows)
  = map (update_row id data) (filter (matches name userId type) rows).
Proof.
  induction rows as [|s rows IH]; cbn; auto.
  rewrite matches_update_row.
  destruct (matches name userId type s); cbn; now rewrite IH.
Qed.

Lemma find_map_update_row name userId type id rows :
  find (matches name userId type) (map (update_row id data) rows)
  = option_map (update_row id data) (find (matches name userId type) rows).
Proof.
  induction rows as [|s rows IH]; cbn; auto.
  rewrite matches_update_row.
  destruct (matches name userId type s); cbn; auto.
Qed.

End Upsert.

Lemma saveSubscription_run E input w :
  (forall t op, repo_fault E t op = None) ->
  saveSubscription E input w
  = match find (matches (in_name input) (in_userId input) Newsletter)
               (subscriptions w) with
    | Some existing =>
        (Ok (Subscription.id existing),
         after [EvRepo (UpdateSubscription
                          (Subscription.id existing)
                          (subscriptionData input (clock E (now w))));
                lookup_of input]
               (map (update_row (Subscription.id existing)
                                (subscriptionData input (clock E (now w))))
                    (subscriptions w))
               w)
    | None =>
        (Ok (Subscription.id (inserted_row E input w)),
         after [EvRepo (SaveSubscription
                          (new_newsletter_subscription input (clock E (now w))));
                lookup_of input]
               (subscriptions w ++ [inserted_row E input w])
               w)
    end.
Proof.
  intros Hok.
  unfold saveSubscription, getSubscriptionByNameAndUserId,
    Subscription_findOneBy, Subscription_update, Subscription_save.
  run. rewrite !Hok. cbn [subscriptions].
  destruct (find _ (subscriptions w)) as [existing|] eqn:Hfind.
  - rewrite Hok. reflexivity.
  - rewrite Hok. cbn.
    rewrite (find_none_existsb _ _ Hfind), andb_false_r. reflexivity.
Qed.

Lemma matches_inserted_row E input w :
  matches (in_name input) (in_userId input) Newsletter (inserted_row E input w)
  = true.
Proof. unfold matches; cbn. now rewrite !String.eqb_refl. Qed.

Lemma find_app_none {A} (p : A -> bool) l a :
  find p l = None -> p a = true -> find p (l ++ [a]) = Some a.
Proof.
  intros Hl Ha. induction l as [|b l IH]; cbn in *.
  - now rewrite Ha.
  - destruct (p b); [discriminate | auto].
Qed.

(** C3: with a store that raises no error, [saveSubscription] is an upsert.
    When a row matches (user, name, Newsletter), the first such row has its
    metadata updated (the fields the input defines among unsubscribeHttpUrl,
    unsubscribeMailTo and icon, and lastFetchedAt; nothing else) and its id
    is returned; otherwise one row is inserted, with status Active, and its
    id is returned.  Two calls with the same (userId, name), from a table
    with at most one matching row, return the same id and leave exactly one
    matching row, which [getSubscriptionByNameAndUserId] then returns. *)
Theorem C3_saveSubscription_upsert E input w :
  (forall t op, repo_fault E t op = None) ->
  (match find (matches (in_name input) (in_userId input) Newsletter)
              (subscriptions w) with
   | Some existing =>
       saveSubscription E input w
       = (Ok (Subscription.id existing),
          after [EvRepo (UpdateSubscription
                           (Subscription.id existing)
                           (subscriptionData input (clock E (now w))));
                 lookup_of input]
                (map (update_row (Subscription.id existing)
                                 (subscriptionData input (clock E (now w))))
                     (subscriptions w))
                w)
   | None =>
       saveSubscription E input w
       = (Ok (generated_id E (S (now w))),
          after [EvRepo (SaveSubscription
                           (new_newsletter_subscription input (clock E (now w))));
                 lookup_of input]
                (subscriptions w ++ [inserted_row E input w])
                w)
       /\ Subscription.status (inserted_row E input w) = Active
   end)
  /\ (forall s,
         let s' := apply_data (subscriptionData input (clock E (now w))) s in
         Subscription.id s' = Subscription.id s
         /\ Subscription.key s' = Subscription.key s
         /\ Subscription.status s' = Subscription.status s
         /\ Subscription.newsletterEmailId s' = Subscription.newsletterEmailId s
         /\ Subscription.lastFetchedAt s' = Some (clock E (now w))
         /\ Subscription.unsubscribeHttpUrl s'
            = match in_unsubscribeHttpUrl input with
              | Some v => Some v
              | None => Subscription.unsubscribeHttpUrl s
              end
         /\ Subscription.unsubscribeMailTo s'
            = match in_unsubscribeMailTo input with
              | Some v => Some v
              | None => Subscription.unsubscribeMailTo s
              end
         /\ Subscription.icon s'
            = match in_icon input with
              | Some v => Some v
              | None => Subscription.icon s
              end)
  /\ (forall input2,
         in_userId input2 = in_userId input ->
         in_name input2 = in_name input ->
         count_matching (in_name input) (in_userId input) (subscriptions w) <= 1 ->
         exists id w1 w2 w3 row,
           saveSubscription E input w = (Ok id, w1)
           /\ saveSubscription E input2 w1 = (Ok id, w2)
           /\ count_matching (in_name input) (in_userId input) (subscriptions w2) = 1
           /\ getSubscriptionByNameAndUserId E (in_name input) (in_userId input) w2
              = (Ok (Some row), w3)
           /\ Subscription.id row = id).
Proof.
  intros Hok. split; [|split].
  - rewrite (saveSubscription_run E input w Hok).
    destruct (find _ _); [reflexivity | split; reflexivity].
  - intros s. cbv zeta. splits.
  - intros input2 Huser Hname Hcount.
    assert (Hlookup : forall w0 row,
               find (matches (in_name input) (in_userId input) Newsletter)
                    (subscriptions w0) = Some row ->
               exists w3,
                 getSubscriptionByNameAndUserId
                   E (in_name input) (in_userId input) w0 = (Ok (Some row), w3)).
    { intros w0 row Hrow.
      unfold getSubscriptionByNameAndUserId, Subscription_findOneBy. run.
      rewrite Hok. cbn [subscriptions]. rewrite Hrow. eauto. }
    rewrite (saveSubscription_run E input w Hok).
    destruct (find _ (subscriptions w)) as [existing|] eqn:Hfind.
    + destruct (find_some_filter _ _ _ Hfind) as [Hone Hmatch].
      set (d1 := subscriptionData input (clock E (now w))) in *.
      set (w1 := after _ _ w).
      assert (Hfind1 : find (matches (in_name input) (in_userId input) Newsletter)
                            (subscriptions w1)
                       = Some (update_row (Subscription.id existing) d1 existing)).
      { subst w1 d1; cbn. rewrite find_map_update_row, Hfind. reflexivity. }
      pose proof (saveSubscription_run E input2 w1 Hok) as Hrun2.
      rewrite Huser, Hname, Hfind1 in Hrun2.
      unfold d1 in Hrun2 at 1. rewrite id_update_row in Hrun2.
      set (d2 := subscriptionData input2 (clock E (now w1))) in *.
      set (w2 := after _ _ w1) in Hrun2.
      assert (Hfind2 : find (matches (in_name input) (in_userId input) Newsletter)
                            (subscriptions w2)
                       = Some (update_row (Subscription.id existing) d2
                                 (update_row (Subscription.id existing) d1 existing))).
      { subst w2 d2; cbn. unfold d1 at 1. rewrite id_update_row.
        rewrite find_map_update_row. fold d1.
        change (map _ (subscriptions w)) with (subscriptions w1).
        rewrite Hfind1. reflexivity. }
      destruct (Hlookup w2 _ Hfind2) as (w3 & Hget).
      exists (Subscription.id existing), w1, w2, w3. eexists.
      split; [reflexivity|]. split; [exact Hrun2|]. split; [|split; [exact Hget|]].
      * subst w2 w1 d1 d2; cbn. unfold count_matching in *.
        rewrite !id_update_row.
        rewrite !filter_map_update_row, !length_map. lia.
      * subst d1 d2. now rewrite !id_update_row.
    + set (row := inserted_row E input w).
      set (w1 := after _ _ w).
      assert (Hfind1 : find (matches (in_name input) (in_userId input) Newsletter)
                            (subscriptions w1) = Some row).
      { subst w1; cbn. apply find_app_none; [exact Hfind|].
        apply matches_inserted_row. }
      pose proof (saveSubscription_run E input2 w1 Hok) as Hrun2.
      rewrite Huser, Hname, Hfind1 in Hrun2.
      set (d2 := subscriptionData input2 (clock E (now w1))) in *.
      set (w2 := after _ _ w1) in Hrun2.
      assert (Hfind2 : find (matches (in_name input) (in_userId input) Newsletter)
                            (subscriptions w2)
                       = Some (update_row (Subscription.id row) d2 row)).
      { subst w2 d2; cbn. rewrite find_map_update_row.
        change (subscriptions w ++ [row]) with (subscriptions w1).
        rewrite Hfind1. reflexivity. }
      destruct (Hlookup w2 _ Hfind2) as (w3 & Hget).
      exists (Subscription.id row), w1, w2, w3. eexists.
      split; [reflexivity|]. split; [exact Hrun2|]. split; [|split; [exact Hget|]].
      * subst w2 w1 d2; cbn. unfold count_matching.
        rewrite filter_map_update_row, length_map, filter_app, length_app.
        rewrite (find_none_filter _ _ Hfind). cbn [filter length Nat.add].
        subst row. rewrite (matches_inserted_row E input w). reflexivity.
      * subst d2. now rewrite id_update_row.
Qed.

Lemma C3_saveSubscription_upsert_witness :
  exists id w1 w2 w3 row,
    saveSubscription Sample.env SampleUpsert.input Sample.world = (Ok id, w1)
    /\ saveSubscription Sample.env SampleUpsert.input w1 = (Ok id, w2)
    /\ count_matching "Daily" "user-1" (subscriptions w2) = 1
    /\ getSubscriptionByNameAndUserId Sample.env "Daily" "user-1" w2
       = (Ok (Some row), w3)
    /\ Subscription.id row = id.
Proof.
  destruct (C3_saveSubscription_upsert
              Sample.env SampleUpsert.input Sample.world
              (fun _ _ => eq_refl))
    as (_ & _ & Htwice).
  apply (Htwice SampleUpsert.input eq_refl eq_refl).
  vm_compute. repeat constructor.
Defined.

(* ------------------------------------------------------------------ *)
(** ** The signup flow *)

(** Without the constraint in the store, signing up twice for Morning Brew
    leaves two rows with the same key. *)
Example handleSubscribe_twice_unconstrained :
  let w1 := snd (SampleSignup.signup Sample.env Sample.world) in
  let w2 := snd (SampleSignup.signup Sample.env w1) in
  map Subscription.key (subscriptions w2)
  = [("user-1", "Weekly", Newsletter); ("user-1", "Feed", Rss);
     ("user-1", "Digest", Newsletter);
     ("user-1", "Morning Brew", Newsletter);
     ("user-1", "Morning Brew", Newsletter)]%string.
Proof. vm_compute. reflexivity. Qed.

(** C5: an error of the store while the rows are saved is not caught by
    [handleSubscribe]: the call raises instead of returning null. *)
Theorem C5_handleSubscribe_save_error_escapes :
  fst (SampleSignup.signup SampleSignup.save_fails Sample.world)
  = Throw (PersistenceError "connection terminated").
Proof. vm_compute. reflexivity. Qed.

(* ------------------------------------------------------------------ *)
(** ** What the two row-creating operations do keep *)

Lemma matches_key name userId type s :
  matches name userId type s = true
  <-> Subscription.key s = (userId, name, type).
Proof.
  unfold matches, Subscription.key. split.
  - intros H. apply andb_true_iff in H as [H Ht].
    apply andb_true_iff in H as [Hn Hu].
    apply String.eqb_eq in Hn, Hu.
    destruct (Subscription.type s), type; try discriminate; congruence.
  - intros H. injection H as Hu Hn Ht. rewrite Hu, Hn, Ht, !String.eqb_refl.
    destruct type; reflexivity.
Qed.

Lemma find_none_key name userId type rows :
  find (matches name userId type) rows = None ->
  ~ In (userId, name, type) (map Subscription.key rows).
Proof.
  intros Hfind Hin. apply in_map_iff in Hin as (s & Hkey & Hs).
  apply matches_key in Hkey.
  pose proof (find_none _ _ Hfind _ Hs) as Hno. congruence.
Qed.

Lemma key_update_row input lastFetchedAt id rows :
  map Subscription.key
      (map (update_row id (subscriptionData input lastFetchedAt)) rows)
  = map Subscription.key rows.
Proof.
  rewrite map_map. apply map_ext. intros s.
  unfold update_row. destruct (has_id id s); reflexivity.
Qed.

(** Whatever the store answers, [saveSubscription] keeps (user, name, type)
    unique over the rows. *)
Theorem saveSubscription_keeps_unique_keys E input w :
  unique_keys (subscriptions w) ->
  unique_keys (subscriptions (snd (saveSubscription E input w))).
Proof.
  unfold unique_keys. intros Huniq.
  unfold saveSubscription, getSubscriptionByNameAndUserId,
    Subscription_findOneBy, Subscription_update, Subscription_save.
  run.
  destruct (repo_fault E (now w) _); [exact Huniq|]. cbn [subscriptions].
  destruct (find _ (subscriptions w)) as [existing|] eqn:Hfind.
  - destruct (repo_fault E _ _); cbn; [exact Huniq|].
    now rewrite key_update_row.
  - destruct (repo_fault E _ _); cbn; [exact Huniq|].
    rewrite (find_none_existsb _ _ Hfind), andb_false_r. cbn.
    rewrite map_app. cbn.
    apply NoDup_app; [exact Huniq | repeat constructor; intros [] | ].
    intros k Hk [<-|[]]. revert Hk. now apply find_none_key.
Qed.

Lemma saveSubscription_keeps_unique_keys_witness :
  unique_keys
    (subscriptions
       (snd (saveSubscription Sample.env SampleUpsert.input Sample.world))).
Proof.
  apply saveSubscription_keeps_unique_keys.
  unfold unique_keys. cbn.
  repeat constructor; cbn; intuition discriminate.
Defined.

Section Signup.
Variable E : Env.
Hypothesis store_answers : forall t op, repo_fault E t op = None.
Hypothesis providers_answer : forall t r, axios_outcome E t r = None.
Hypothesis not_enforced : unique_enforced E = false.

Lemma subscribe_run this email w :
  exists evs,
    _subscribe E this email w
    = (Ok (activated this),
       world_with (subscriptions w) (newsletter_emails w) evs w).
Proof.
  destruct this; cbn [_subscribe activated]; run.
  - exists []. destruct w; reflexivity.
  - rewrite providers_answer. eexists [_]. reflexivity.
  - rewrite providers_answer. eexists [_]. reflexivity.
  - rewrite providers_answer. eexists [_]. reflexivity.
  - rewrite providers_answer. eexists [_]. reflexivity.
Qed.

Lemma Subscription_save_run data name user w :
  d_name data = Some name ->
  d_user data = Some user ->
  Subscription_save E data w
  = (Ok (saved_row E data name user w),
     world_with (subscriptions w ++ [saved_row E data name user w])
                (newsletter_emails w) [EvRepo (SaveSubscription data)] w).
Proof.
  intros Hname Huser. unfold Subscription_save. run.
  rewrite store_answers, Hname, Huser, not_enforced. reflexivity.
Qed.

Lemma save_all_run userId newsletterEmailId names : forall w,
  exists rows evs,
    map_M (fun name =>
             spawn (Subscription_save
                      E (new_subscription name newsletterEmailId userId)))
          names w
    = (Ok (map Ok rows),
       world_with (subscriptions w ++ rows) (newsletter_emails w) evs w)
    /\ map Subscription.name rows = names
    /\ Forall (signed_up userId newsletterEmailId) rows.
Proof.
  induction names as [|name names IH]; intros w.
  - exists [], []. cbn. rewrite app_nil_r. destruct w; auto.
  - cbn [map_M]. unfold bind at 1, spawn at 1.
    rewrite (Subscription_save_run
               (new_subscription name newsletterEmailId userId)
               name userId w eq_refl eq_refl).
    set (row := saved_row E _ name userId w).
    set (w1 := world_with _ _ _ w).
    destruct (IH w1) as (rows & evs & Hrun & Hn & Hall).
    unfold bind at 1. rewrite Hrun. run.
    exists (row :: rows), (evs ++ [EvRepo (SaveSubscription
                                             (new_subscription
                                                name newsletterEmailId userId))]).
    split; [|split].
    + unfold world_with, w1; cbn. rewrite <- !app_assoc. reflexivity.
    + cbn. now rewrite Hn.
    + constructor; [repeat split | exact Hall].
Qed.

Lemma Promise_all_ok {A} (l : list A) : Promise_all (map Ok l) = Ok l.
Proof. induction l as [|a l IH]; cbn; [reflexivity | now rewrite IH]. Qed.

(** After the mailbox is resolved: the provider call and the rows. *)
Lemma handleSubscribe_rows this userId name newsletterEmail w :
  exists rows evs,
         (bind (_subscribe E this (NewsletterEmail.address newsletterEmail))
               (fun subscribedNames =>
                  match subscribedNames with
                  | [] =>
                      log "Failed to get subscribe response" (LogString name) ;;
                      ret (Ok None)
                  | _ :: _ =>
                      newSubscriptions <-
                        map_M (fun name =>
                                 spawn (Subscription_save
                                          E (new_subscription
                                               name
                                               (NewsletterEmail.id newsletterEmail)
                                               userId)))
                              subscribedNames ;;
                      ret (match Promise_all newSubscriptions with
                           | Ok rows => Ok (Some rows)
                           | Throw e => Throw e
                           end)
                  end))
         w
    = (Ok (Ok (match activated this with [] => None | _ :: _ => Some rows end)),
       world_with (subscriptions w ++ rows) (newsletter_emails w) evs w)
    /\ map Subscription.name rows = activated this
    /\ Forall (signed_up userId (NewsletterEmail.id newsletterEmail)) rows.
Proof.
  destruct (subscribe_run this (NewsletterEmail.address newsletterEmail) w)
    as (evs1 & Hsub).
  unfold bind at 1. rewrite Hsub.
  destruct (activated this) as [|n names] eqn:Hnames.
  - exists [], (EvLog "Failed to get subscribe response" (LogString name) :: evs1).
    run. unfold world_with. cbn. rewrite app_nil_r. auto.
  - set (w1 := world_with _ _ evs1 w).
    destruct (save_all_run userId (NewsletterEmail.id newsletterEmail)
                           (n :: names) w1)
      as (rows & evs2 & Hrun & Hn & Hall).
    unfold bind at 1. rewrite Hrun.
    rewrite Promise_all_ok. run.
    exists rows, (evs2 ++ evs1). split; [|split; assumption].
    unfold world_with, w1; cbn. now rewrite app_assoc.
Qed.

(** When the store, the provider and the provisioning of mailboxes all
    answer and the store does not enforce uniqueness, [handleSubscribe]
    resolves the user's mailbox (the first existing one, or a new one),
    and creates one row per name the handler reports, in order: each
    Active, of the user, and linked to that mailbox.  It returns these
    rows, or null when the handler reports no name. *)
Theorem handleSubscribe_creates_rows this userId name w :
  (forall t u, exists created, createNewsletterEmail_outcome E t u = Ok created) ->
  exists rows emails evs newsletterEmail,
    handleSubscribe E this userId name w
    = (Ok (match activated this with [] => None | _ :: _ => Some rows end),
       world_with (subscriptions w ++ rows) emails evs w)
    /\ map Subscription.name rows = activated this
    /\ Forall (signed_up userId (NewsletterEmail.id newsletterEmail)) rows
    /\ NewsletterEmail.user newsletterEmail = userId
    /\ match find (fun e => String.eqb (NewsletterEmail.user e) userId)
                  (newsletter_emails w) with
       | Some existing =>
           newsletterEmail = existing /\ emails = newsletter_emails w
       | None => emails = newsletter_emails w ++ [newsletterEmail]
       end.
Proof.
  intros Hprovision.
  unfold handleSubscribe. unfold bind at 1. unfold try_catch.
  unfold bind at 1. unfold NewsletterEmail_findOneBy. run.
  rewrite store_answers. cbn [newsletter_emails].
  destruct (find _ (newsletter_emails w)) as [existing|] eqn:Hfind.
  - set (w1 := {| subscriptions := _; newsletter_emails := _; trace := _ |}).
    destruct (handleSubscribe_rows this userId name existing w1)
      as (rows & evs & Hrun & Hn & Hall).
    run. rewrite Hrun.
    exists rows, (newsletter_emails w),
      (evs ++ [EvRepo (FindOneNewsletterEmail userId)]), existing.
    split; [|splits].
    + unfold world_with, w1; cbn. now rewrite <- app_assoc.
    + pose proof (find_some _ _ Hfind) as [_ Huser].
      now apply String.eqb_eq in Huser.
  - unfold createNewsletterEmail. run.
    destruct (Hprovision (now {| subscriptions := subscriptions w;
                                 newsletter_emails := newsletter_emails w;
                                 trace := EvRepo (FindOneNewsletterEmail userId)
                                          :: trace w |}) userId)
      as (created & Hcreated).
    rewrite Hcreated.
    cbn [newsletter_emails subscriptions trace].
    set (mailbox := {| NewsletterEmail.id := fst created;
                       NewsletterEmail.address := snd created;
                       NewsletterEmail.user := userId |}).
    set (w1 := {| subscriptions := _; newsletter_emails := _; trace := _ |}).
    destruct (handleSubscribe_rows this userId name mailbox w1)
      as (rows & evs & Hrun & Hn & Hall).
    run. rewrite Hrun.
    exists rows, (newsletter_emails w ++ [mailbox]),
      (evs ++ [EvCreateNewsletterEmail userId;
               EvRepo (FindOneNewsletterEmail userId)]), mailbox.
    split; [|splits].
    unfold world_with, w1; cbn. now rewrite <- app_assoc.
Qed.

End Signup.

Lemma handleSubscribe_creates_rows_witness :
  exists rows emails evs newsletterEmail,
    handleSubscribe Sample.env MorningBrewHandler "user-1" "morning_brew"
                    Sample.world
    = (Ok (Some rows),
       world_with (subscriptions Sample.world ++ rows) emails evs Sample.world)
    /\ map Subscription.name rows = ["Morning Brew"%string]
    /\ Forall (signed_up "user-1" (NewsletterEmail.id newsletterEmail)) rows
    /\ newsletterEmail = Sample.mailbox.
Proof.
  destruct (handleSubscribe_creates_rows
              Sample.env (fun _ _ => eq_refl) (fun _ _ => eq_refl) eq_refl
              MorningBrewHandler "user-1" "morning_brew" Sample.world)
    as (rows & emails & evs & ne & Hrun & Hn & Hall & _ & Hne & _).
  - intros t u. eexists. reflexivity.
  - exists rows, emails, evs, ne. splits.
Defined.

(* ------------------------------------------------------------------ *)
(** ** More on the unsubscribe-address parser *)

Lemma chars_str l : chars (str l) = l.
Proof. apply list_ascii_of_string_of_list_ascii. Qed.

(** What [replace] leaves is the text around one block of the input. *)
Lemma remove_first_cut pat l :
  exists pre cut post,
    l = pre ++ cut ++ post /\ remove_first pat l = pre ++ post.
Proof.
  induction l as [|c l IH].
  - exists [], [], []. split; [reflexivity|]. cbn.
    destruct (is_prefix pat []); [|reflexivity]. now rewrite skipn_nil.
  - cbn [remove_first]. destruct (is_prefix pat (c :: l)).
    + exists [], (firstn (length pat) (c :: l)), (skipn (length pat) (c :: l)).
      cbn [app]. now rewrite firstn_skipn.
    + destruct IH as (pre & cut & post & Hl & Hr).
      exists (c :: pre), cut, post. cbn [app]. now rewrite <- Hl, Hr.
Qed.

(** Whatever the input, a result of [parseUnsubscribeMailTo] has an address
    that is not empty and holds an at sign, made of the input with one block
    cut out, and a subject that is not empty; an error is the URL
    constructor's or the invalid-address error, and carries the input. *)
Theorem parseUnsubscribeMailTo_result (unsubscribeMailTo : string) :
  match parseUnsubscribeMailTo unsubscribeMailTo with
  | Ok parsed =>
      to parsed <> ""%string
      /\ includes (chars (to parsed)) "@" = true
      /\ subject parsed <> ""%string
      /\ exists pre cut post,
          chars unsubscribeMailTo = pre ++ cut ++ post
          /\ chars (to parsed) = pre ++ post
  | Throw e =>
      e = InvalidUnsubscribeAddress unsubscribeMailTo
      \/ e = InvalidURL ("mailto://" ++ unsubscribeMailTo)
  end.
Proof.
  unfold parseUnsubscribeMailTo.
  destruct (URL.parse_mailto (chars unsubscribeMailTo)) as [parsed|]; [|auto].
  destruct (remove_first_cut (URL.search parsed) (chars unsubscribeMailTo))
    as (pre & cut & post & Hin & Hto).
  destruct (remove_first (URL.search parsed) (chars unsubscribeMailTo))
    as [|c to_] eqn:Hrem; [cbn; auto|].
  cbn [orb negb].
  destruct (includes (c :: to_) "@") eqn:Hat; cbn [negb]; [|auto].
  cbn [to subject]. rewrite chars_str. splits.
  - cbn. discriminate.
  - destruct (URL.searchParams_get parsed (chars "subject")) as [[|x v]|];
      cbn; discriminate.
  - exists pre, cut, post. auto.
Qed.

Lemma includes_clean c l :
  includes l c = false -> includes (URL.clean l) c = false.
Proof.
  unfold includes, URL.clean. intros H.
  destruct (existsb (Ascii.eqb c) (filter _ _)) eqn:Hex; [|reflexivity].
  apply existsb_exists in Hex as (x & Hx & Hc).
  apply filter_In in Hx as [Hx _]. apply in_rev in Hx.
  assert (Hin : In x (rev l)).
  { clear - Hx. induction (rev l) as [|a r IH]; cbn in *; [contradiction|].
    destruct (URL.is_c0_control_or_space a); auto. }
  apply in_rev in Hin.
  assert (existsb (Ascii.eqb c) l = true) by (apply existsb_exists; eauto).
  congruence.
Qed.

Lemma drop_while_in {A} (p : A -> bool) l x rest :
  drop_while p l = x :: rest -> p x = false /\ In x l.
Proof.
  induction l as [|a l IH]; cbn; [discriminate|].
  destruct (p a) eqn:Hp.
  - intros H. destruct (IH H). auto.
  - intros [= -> ->]. auto.
Qed.

(** Without a question mark in the input there is no query. *)
Lemma parse_mailto_no_query l u :
  includes l "?" = false ->
  URL.parse_mailto l = Some u -> URL.query u = None.
Proof.
  intros Hq. unfold URL.parse_mailto. cbv zeta.
  destruct (URL.authority_valid _); [|discriminate]. intros [= <-].
  unfold URL.parse_after_authority.
  destruct (drop_while _ (drop_while _ (URL.clean l))) as [|c q] eqn:Hd;
    [reflexivity|].
  destruct (c =? "?")%char eqn:Hc; [|reflexivity].
  apply Ascii.eqb_eq in Hc. subst c.
  apply drop_while_in in Hd as [_ Hin].
  assert (Hin2 : In "?"%char (URL.clean l)).
  { clear - Hin. induction (URL.clean l) as [|a r IH]; cbn in *; [contradiction|].
    destruct (negb (URL.ends_authority a)); auto. }
  apply includes_clean in Hq. unfold includes in Hq.
  assert (existsb (Ascii.eqb "?") (URL.clean l) = true).
  { apply existsb_exists. exists "?"%char. split; [exact Hin2 | reflexivity]. }
  congruence.
Qed.

(** An input without a question mark is returned whole, with the default
    subject, when the URL constructor accepts it and it holds an at sign. *)
Theorem parseUnsubscribeMailTo_without_query (unsubscribeMailTo : string) :
  includes (chars unsubscribeMailTo) "?" = false ->
  parseUnsubscribeMailTo unsubscribeMailTo
  = match URL.parse_mailto (chars unsubscribeMailTo) with
    | None => Throw (InvalidURL ("mailto://" ++ unsubscribeMailTo))
    | Some _ =>
        if includes (chars unsubscribeMailTo) "@"
        then Ok {| to := unsubscribeMailTo; subject := "Unsubscribe" |}
        else Throw (InvalidUnsubscribeAddress unsubscribeMailTo)
    end.
Proof.
  intros Hq. unfold parseUnsubscribeMailTo.
  destruct (URL.parse_mailto (chars unsubscribeMailTo)) as [u|] eqn:Hu;
    [|reflexivity].
  unfold URL.search, URL.searchParams_get.
  rewrite (parse_mailto_no_query _ _ Hq Hu), remove_first_nil.
  destruct (includes (chars unsubscribeMailTo) "@") eqn:Hat.
  - destruct (chars unsubscribeMailTo) as [|c l] eqn:Hc; [discriminate|].
    cbn [orb negb]. rewrite <- Hc, str_chars. reflexivity.
  - destruct (chars unsubscribeMailTo); reflexivity.
Qed.

Lemma parseUnsubscribeMailTo_without_query_witness :
  parseUnsubscribeMailTo "reader@lists.example.com/leave#now"
  = Ok {| to := "reader@lists.example.com/leave#now";
          subject := "Unsubscribe" |}.
Proof.
  rewrite (parseUnsubscribeMailTo_without_query
             "reader@lists.example.com/leave#now" eq_refl).
  reflexivity.
Defined.

(* ------------------------------------------------------------------ *)
(** ** More on the unsubscribe orchestrator *)

Lemma emails_sent_app evs1 evs2 :
  emails_sent (evs1 ++ evs2) = emails_sent evs1 ++ emails_sent evs2.
Proof.
  induction evs1 as [|[] evs1 IH]; cbn; auto; now rewrite IH.
Qed.

Lemma deletes_app evs1 evs2 :
  deletes (evs1 ++ evs2) = deletes evs1 ++ deletes evs2.
Proof.
  induction evs1 as [|[| | |[]|] evs1 IH]; cbn; auto; now rewrite IH.
Qed.

Lemma deletes_no_target evs : store_targets evs = [] -> deletes evs = [].
Proof.
  induction evs as [|[| | |[]|] evs IH]; cbn; auto; discriminate.
Qed.

Section UnsubscribeMore.
Variable E : Env.

(** The attempt, with the email it sends. *)
Lemma unsubscribe_attempt_email sub w :
  exists unsubscribed evs,
    unsubscribe_attempt E sub w
    = (Ok unsubscribed, after evs (subscriptions w) w)
    /\ store_targets evs = []
    /\ filter is_http evs = []
    /\ (emails_sent evs = [] /\ unsubscribed = false
        \/ exists mailTo newsletterEmail parsed,
            Subscription.unsubscribeMailTo sub = Some mailTo
            /\ Subscription.newsletterEmail sub = Some newsletterEmail
            /\ parseUnsubscribeMailTo mailTo = Ok parsed
            /\ emails_sent evs
               = [unsubscribe_message parsed
                    (NewsletterEmail.address newsletterEmail)]
            /\ (unsubscribed = true <->
                sendEmail_outcome
                  E (now w)
                  (unsubscribe_message parsed
                     (NewsletterEmail.address newsletterEmail)) = Ok true)).
Proof.
  unfold unsubscribe_attempt.
  destruct (Subscription.unsubscribeMailTo sub) as [mailTo|];
    [destruct (Subscription.newsletterEmail sub) as [ne|]|];
    try solve [exists false, []; rewrite after_nil; splits].
  destruct (truthy (Some mailTo));
    [|exists false, []; rewrite after_nil; splits].
  rewrite sendUnsubscribeEmail_run.
  destruct (parseUnsubscribeMailTo mailTo) as [parsed|e] eqn:Hparse.
  - cbv zeta.
    destruct (sendEmail_outcome E _ _) as [[|]|e] eqn:Hsend;
      eexists _, _; (split; [reflexivity|]); splits;
        right; exists mailTo, ne, parsed; splits; rewrite Hsend;
          split; congruence.
  - eexists _, _; (split; [reflexivity|]); splits.
Qed.

(** One call of [unsubscribe]: what it does to the table and what it sends. *)
Lemma unsubscribe_outcome sub w :
  exists evs r rows',
    unsubscribe E sub w = (r, after evs rows' w)
    /\ touched (Subscription.id sub) (subscriptions w) rows'
    /\ ((forall t op, repo_fault E t op = None) ->
        settled (Subscription.id sub) (subscriptions w) rows')
    /\ store_targets evs = [Subscription.id sub]
    /\ filter is_http evs = []
    /\ length (emails_sent evs) <= 1.
Proof.
  unfold touched, settled.
  destruct (Subscription.type sub) eqn:Hty.
  - destruct (unsubscribe_attempt_email sub w)
      as (unsubscribed & attempt & Hatt & Ht & Hhttp & Hmail).
    assert (Hlen : length (emails_sent attempt) <= 1).
    { destruct Hmail as [[-> _]|(? & ? & ? & _ & _ & _ & -> & _)]; cbn; lia. }
    rewrite (unsubscribe_newsletter_run E sub w _ _ Hty Hatt).
    destruct unsubscribed; cbv zeta;
      destruct (repo_fault E _ _) eqn:Hfault; rewrite after_after;
        eexists _, _, _; (split; [reflexivity|]);
          rewrite store_targets_app, emails_sent_app, Ht; cbn;
            splits; intros Hok; rewrite Hok in Hfault; discriminate.
  - rewrite (unsubscribe_rss_run E sub w) by congruence.
    destruct (repo_fault E _ _) eqn:Hfault;
      eexists _, _, _; (split; [reflexivity|]); cbn; splits;
        intros Hok; rewrite Hok in Hfault; discriminate.
Qed.

End UnsubscribeMore.

Lemma filter_filter_has_id id rows :
  filter (fun s => negb (has_id id s))
         (filter (fun s => negb (has_id id s)) rows)
  = filter (fun s => negb (has_id id s)) rows.
Proof.
  induction rows as [|s rows IH]; cbn; auto.
  destruct (has_id id s) eqn:H; cbn; [exact IH|]. now rewrite H, IH.
Qed.

Lemma has_id_update_row id id' d s :
  has_id id (update_row id' d s) = has_id id s.
Proof. unfold update_row, has_id. destruct (String.eqb _ id'); reflexivity. Qed.

Lemma filter_other_update_row id d rows :
  filter (fun s => negb (has_id id s)) (map (update_row id d) rows)
  = filter (fun s => negb (has_id id s)) rows.
Proof.
  induction rows as [|s rows IH]; cbn; auto.
  rewrite has_id_update_row.
  destruct (has_id id s) eqn:H; cbn; [exact IH|].
  unfold update_row at 1. now rewrite H, IH.
Qed.

(** [unsubscribe] leaves every row with another id as it is and where it
    is, adds no row, and leaves the addresses alone: the table becomes the
    table without the rows of the id, or with these rows demoted, or stays
    as it was when the store raised. *)
Theorem unsubscribe_touches_only_its_row E sub w :
  exists evs r rows',
    unsubscribe E sub w = (r, after evs rows' w)
    /\ (rows' = subscriptions w
        \/ rows' = filter (fun s => negb (has_id (Subscription.id sub) s))
                          (subscriptions w)
        \/ rows' = map (update_row (Subscription.id sub) status_unsubscribed)
                       (subscriptions w))
    /\ filter (fun s => negb (has_id (Subscription.id sub) s)) rows'
       = filter (fun s => negb (has_id (Subscription.id sub) s))
                (subscriptions w)
    /\ length rows' <= length (subscriptions w).
Proof.
  destruct (unsubscribe_outcome E sub w)
    as (evs & r & rows' & Hrun & Ht & _).
  exists evs, r, rows'. split; [exact Hrun|]. split; [exact Ht|].
  destruct Ht as [->|[->| ->]].
  - auto.
  - rewrite filter_filter_has_id. split; [reflexivity|]. apply filter_length_le.
  - rewrite filter_other_update_row, length_map. auto.
Qed.

(** The one email a call of [unsubscribe] can send: to the parsed address
    and with the parsed subject of the subscription's [unsubscribeMailTo],
    with the fixed text, from the address of the subscription's
    NewsletterEmail.  A Newsletter row is deleted only after [sendEmail]
    accepted that email. *)
Theorem unsubscribe_email E sub w :
  exists evs r rows',
    unsubscribe E sub w = (r, after evs rows' w)
    /\ (emails_sent evs = []
        \/ exists mailTo newsletterEmail parsed,
            Subscription.type sub = Newsletter
            /\ Subscription.unsubscribeMailTo sub = Some mailTo
            /\ Subscription.newsletterEmail sub = Some newsletterEmail
            /\ parseUnsubscribeMailTo mailTo = Ok parsed
            /\ emails_sent evs
               = [{| mail_to := to parsed;
                     mail_subject := subject parsed;
                     mail_text := UNSUBSCRIBE_EMAIL_TEXT;
                     mail_from := NewsletterEmail.address newsletterEmail |}])
    /\ (Subscription.type sub = Newsletter ->
        deletes evs <> [] ->
        exists m, emails_sent evs = [m]
                  /\ sendEmail_outcome E (now w) m = Ok true).
Proof.
  destruct (Subscription.type sub) eqn:Hty.
  - destruct (unsubscribe_attempt_email E sub w)
      as (unsubscribed & attempt & Hatt & Ht & _ & Hmail).
    assert (Hd : forall l, deletes (l ++ attempt) = deletes l).
    { intros l. rewrite deletes_app, (deletes_no_target _ Ht). apply app_nil_r. }
    rewrite (unsubscribe_newsletter_run E sub w _ _ Hty Hatt).
    destruct unsubscribed; cbv zeta;
      destruct (repo_fault E _ _); rewrite after_after;
        eexists _, _, _; (split; [reflexivity|]);
          rewrite emails_sent_app, Hd; cbn [emails_sent app deletes];
            (split;
             [destruct Hmail as [[-> _]|(m & ne & p & Hm & Hn & Hp & -> & _)];
              [left; reflexivity
              |right; exists m, ne, p; splits]
             |]); intros _ Hdel; try (exfalso; apply Hdel; reflexivity).
    + destruct Hmail as [[_ Habs]|(m & ne & p & _ & _ & _ & -> & Hiff)];
        [discriminate|].
      eexists. split; [reflexivity|]. now apply Hiff.
    + destruct Hmail as [[_ Habs]|(m & ne & p & _ & _ & _ & -> & Hiff)];
        [discriminate|].
      eexists. split; [reflexivity|]. now apply Hiff.
  - rewrite (unsubscribe_rss_run E sub w) by congruence.
    destruct (repo_fault E _ _); eexists _, _, _;
      (split; [reflexivity|]); cbn; split; auto; discriminate.
Qed.

Lemma unsubscribe_email_witness :
  exists m,
    emails_sent (trace (snd (unsubscribe Sample.env Sample.newsletter
                                         Sample.world))) = [m]
    /\ mail_to m = "leave@example.com"%string
    /\ mail_subject m = "Stop"%string
    /\ sendEmail_outcome Sample.env (now Sample.world) m = Ok true.
Proof.
  destruct (unsubscribe_email Sample.env Sample.newsletter Sample.world)
    as (evs & r & rows' & Hrun & _ & Hdel).
  destruct (Hdel eq_refl) as (m & Hm & Hsend).
  - assert (H : deletes (trace (snd (unsubscribe Sample.env Sample.newsletter
                                                 Sample.world)))
                = ["sub-1"%string]) by reflexivity.
    rewrite Hrun in H. cbn in H. rewrite app_nil_r in H. rewrite H. discriminate.
  - exists m. rewrite Hrun. cbn. rewrite app_nil_r.
    assert (H : emails_sent (trace (snd (unsubscribe Sample.env Sample.newsletter
                                                     Sample.world)))
                = [{| mail_to := "leave@example.com";
                      mail_subject := "Stop";
                      mail_text := UNSUBSCRIBE_EMAIL_TEXT;
                      mail_from := "reader-1@inbox.omnivore.app" |}])
      by reflexivity.
    rewrite Hrun in H. cbn in H. rewrite app_nil_r, Hm in H.
    injection H as ->. splits.
Defined.

(* ------------------------------------------------------------------ *)
(** ** More on the bulk unsubscribe orchestrator *)

Section BulkMore.
Variable E : Env.

Lemma unsubscribe_item_outcome sub w :
  exists evs rows',
    unsubscribe_item E sub w = (Ok tt, after evs rows' w)
    /\ touched (Subscription.id sub) (subscriptions w) rows'
    /\ ((forall t op, repo_fault E t op = None) ->
        settled (Subscription.id sub) (subscriptions w) rows')
    /\ filter is_http evs = []
    /\ length (emails_sent evs) <= 1.
Proof.
  destruct (unsubscribe_outcome E sub w)
    as (evs & r & rows' & Hrun & Ht & Hs & _ & Hhttp & Hmail).
  unfold unsubscribe_item, try_catch, bind. rewrite Hrun.
  destruct r as [r|e].
  - exists evs, rows'. splits.
  - exists (EvLog "Failed to unsubscribe" (LogError e) :: evs), rows'. splits.
Qed.

Lemma for_of_unsubscribe_outcome subs : forall w,
  exists evs rows',
    for_of subs (unsubscribe_item E) w = (Ok tt, after evs rows' w)
    /\ steps touched (map Subscription.id subs) (subscriptions w) rows'
    /\ ((forall t op, repo_fault E t op = None) ->
        steps settled (map Subscription.id subs) (subscriptions w) rows')
    /\ filter is_http evs = []
    /\ length (emails_sent evs) <= length subs.
Proof.
  induction subs as [|sub subs IH]; intros w.
  - exists [], (subscriptions w). rewrite after_nil. cbn. splits.
  - destruct (unsubscribe_item_outcome sub w)
      as (evs1 & rows1 & Hrun1 & Ht1 & Hs1 & Hh1 & Hm1).
    destruct (IH (after evs1 rows1 w))
      as (evs2 & rows2 & Hrun2 & Ht2 & Hs2 & Hh2 & Hm2).
    exists (evs2 ++ evs1), rows2.
    cbn [for_of]. unfold bind at 1. rewrite Hrun1, Hrun2, after_after.
    split; [reflexivity|]. cbn [map steps]. split; [|split; [|split]].
    + exists rows1. auto.
    + intros Hok. exists rows1. auto.
    + now rewrite filter_app, Hh1, Hh2.
    + rewrite emails_sent_app, length_app. cbn. lia.
Qed.

Lemma steps_touched_refl ids rows : steps touched ids rows rows.
Proof.
  induction ids as [|i ids IH]; cbn; [reflexivity|].
  exists rows. split; [left; reflexivity | exact IH].
Qed.

(** [unsubscribeAll]: one step of [unsubscribe] per bound subscription. *)
Lemma unsubscribeAll_outcome newsletterEmail w :
  exists evs rows',
    unsubscribeAll E newsletterEmail w = (Ok tt, after evs rows' w)
    /\ let ids :=
         map Subscription.id
             (filter (bound_to (NewsletterEmail.user newsletterEmail)
                               (NewsletterEmail.id newsletterEmail))
                     (subscriptions w)) in
       steps touched ids (subscriptions w) rows'
       /\ ((forall t op, repo_fault E t op = None) ->
           steps settled ids (subscriptions w) rows')
       /\ filter is_http evs = []
       /\ length (emails_sent evs) <= length ids.
Proof.
  unfold unsubscribeAll, Subscription_find. fold (unsubscribe_item E).
  unfold try_catch, bind at 1 2, repo, bind at 1 2, read, emit.
  destruct (repo_fault E (now w) _) as [e|] eqn:Hfault.
  - cbn. eexists [_; _], (subscriptions w). split; [reflexivity|].
    split; [apply steps_touched_refl|]. split; [|split; [reflexivity | cbn; lia]].
    intros Hok. unfold now in Hfault. rewrite Hok in Hfault. discriminate.
  - cbn.
    match goal with
    | |- context [for_of ?subs _ ?w1] =>
        destruct (for_of_unsubscribe_outcome subs w1)
          as (evs & rows' & Hrun & Ht & Hs & Hh & Hm)
    end.
    rewrite Hrun. rewrite map_id_load in Ht, Hs.
    rewrite length_map in Hm. cbn in Ht, Hs.
    eexists (evs ++ [_]), rows'. split.
    + unfold after; cbn. now rewrite <- app_assoc.
    + rewrite filter_app, emails_sent_app, length_app, length_map. cbn.
      rewrite app_nil_r, Nat.add_0_r. auto.
Qed.

End BulkMore.

Lemma id_in_update_row ids id d s :
  id_in ids (update_row id d s) = id_in ids s.
Proof. unfold update_row, id_in. destruct (has_id id s); reflexivity. Qed.

Lemma id_in_has_id ids id s :
  In id ids -> has_id id s = true -> id_in ids s = true.
Proof.
  intros Hin Hid. unfold id_in. apply existsb_exists. exists id.
  split; [exact Hin | exact Hid].
Qed.

Lemma touched_frame ids id rows rows' :
  In id ids -> touched id rows rows' ->
  filter (fun s => negb (id_in ids s)) rows'
  = filter (fun s => negb (id_in ids s)) rows
  /\ length rows' <= length rows.
Proof.
  intros Hin [->|[->| ->]].
  - auto.
  - split; [|apply filter_length_le].
    induction rows as [|s rows IH]; cbn; auto.
    destruct (has_id id s) eqn:Hid; cbn.
    + rewrite (id_in_has_id ids id s Hin Hid). exact IH.
    + destruct (id_in ids s); cbn; now rewrite IH.
  - rewrite length_map. split; [|auto].
    induction rows as [|s rows IH]; cbn; auto.
    rewrite id_in_update_row.
    destruct (id_in ids s) eqn:Hids; cbn; [exact IH|].
    rewrite IH. f_equal. unfold update_row.
    destruct (has_id id s) eqn:Hid; [|reflexivity].
    rewrite (id_in_has_id ids id s Hin Hid) in Hids. discriminate.
Qed.

Lemma steps_frame ids0 ids : forall rows rows',
  incl ids ids0 -> steps touched ids rows rows' ->
  filter (fun s => negb (id_in ids0 s)) rows'
  = filter (fun s => negb (id_in ids0 s)) rows
  /\ length rows' <= length rows.
Proof.
  induction ids as [|i ids IH]; intros rows rows' Hincl Hsteps; cbn in Hsteps.
  - subst. auto.
  - destruct Hsteps as (mid & Ht & Hrest).
    destruct (touched_frame ids0 i rows mid) as [Hf Hl];
      [apply Hincl; left; reflexivity | exact Ht |].
    destruct (IH mid rows') as [Hf' Hl'];
      [intros x Hx; apply Hincl; right; exact Hx | exact Hrest |].
    split; [congruence | lia].
Qed.

(** [unsubscribeAll] leaves alone every row whose id is not the id of a
    subscription bound to the address (same rows, same order), adds no row,
    makes no HTTP request and sends at most one email per bound
    subscription. *)
Theorem unsubscribeAll_touches_only_bound_rows E newsletterEmail w :
  exists evs rows',
    unsubscribeAll E newsletterEmail w = (Ok tt, after evs rows' w)
    /\ let ids :=
         map Subscription.id
             (filter (bound_to (NewsletterEmail.user newsletterEmail)
                               (NewsletterEmail.id newsletterEmail))
                     (subscriptions w)) in
       filter (fun s => negb (id_in ids s)) rows'
       = filter (fun s => negb (id_in ids s)) (subscriptions w)
       /\ length rows' <= length (subscriptions w)
       /\ filter is_http evs = []
       /\ length (emails_sent evs) <= length ids.
Proof.
  destruct (unsubscribeAll_outcome E newsletterEmail w)
    as (evs & rows' & Hrun & Ht & _ & Hh & Hm).
  exists evs, rows'. split; [exact Hrun|]. cbv zeta.
  destruct (steps_frame _ _ _ _ (incl_refl _) Ht) as [Hf Hl]. splits.
Qed.

Lemma NoDup_map_filter {A B} (f : A -> B) (p : A -> bool) l :
  NoDup (map f l) -> NoDup (map f (filter p l)).
Proof.
  induction l as [|a l IH]; cbn; auto.
  intros H. inversion H as [|? ? Hnotin Hnd]; subst.
  destruct (p a); cbn; auto.
  constructor; auto. intros Hin. apply Hnotin.
  apply in_map_iff in Hin as (x & Hx & Hin). apply filter_In in Hin as [Hin _].
  apply in_map_iff. eauto.
Qed.

Lemma key_update_status id rows :
  map Subscription.key (map (update_row id status_unsubscribed) rows)
  = map Subscription.key rows.
Proof.
  rewrite map_map. apply map_ext. intros s.
  unfold update_row. destruct (has_id id s); reflexivity.
Qed.

Lemma touched_unique_keys id rows rows' :
  touched id rows rows' -> unique_keys rows -> unique_keys rows'.
Proof.
  unfold unique_keys. intros [->|[->| ->]] H; auto.
  - now apply NoDup_map_filter.
  - now rewrite key_update_status.
Qed.

Lemma steps_unique_keys ids : forall rows rows',
  steps touched ids rows rows' -> unique_keys rows -> unique_keys rows'.
Proof.
  induction ids as [|i ids IH]; intros rows rows' Hsteps H; cbn in Hsteps.
  - now subst.
  - destruct Hsteps as (mid & Ht & Hrest).
    apply (IH mid rows' Hrest). exact (touched_unique_keys _ _ _ Ht H).
Qed.

(** Whatever the collaborators answer, [unsubscribe] and [unsubscribeAll]
    keep (user, name, type) unique over the rows. *)
Theorem unsubscribe_keeps_unique_keys E sub newsletterEmail w :
  unique_keys (subscriptions w) ->
  unique_keys (subscriptions (snd (unsubscribe E sub w)))
  /\ unique_keys (subscriptions (snd (unsubscribeAll E newsletterEmail w))).
Proof.
  intros H. split.
  - destruct (unsubscribe_outcome E sub w)
      as (evs & r & rows' & Hrun & Ht & _).
    rewrite Hrun. cbn. exact (touched_unique_keys _ _ _ Ht H).
  - destruct (unsubscribeAll_outcome E newsletterEmail w)
      as (evs & rows' & Hrun & Ht & _).
    rewrite Hrun. cbn. exact (steps_unique_keys _ _ _ Ht H).
Qed.

Lemma sample_world_unique_keys : unique_keys (subscriptions Sample.world).
Proof.
  unfold unique_keys. cbn. repeat constructor; cbn; intuition discriminate.
Qed.

Lemma unsubscribe_keeps_unique_keys_witness :
  unique_keys
    (subscriptions (snd (unsubscribe Sample.env Sample.newsletter Sample.world)))
  /\ unique_keys
       (subscriptions
          (snd (unsubscribeAll Sample.env Sample.mailbox Sample.world))).
Proof.
  apply unsubscribe_keeps_unique_keys. exact sample_world_unique_keys.
Defined.

Lemma bound_to_update_status userId newsletterEmailId id s :
  bound_to userId newsletterEmailId (update_row id status_unsubscribed s)
  = bound_to userId newsletterEmailId s.
Proof. unfold update_row. destruct (has_id id s); reflexivity. Qed.

Lemma steps_settled_none_active userId newsletterEmailId ids :
  forall rows rows',
    steps settled ids rows rows' ->
    (forall s, In s rows -> bound_to userId newsletterEmailId s = true ->
               Subscription.status s = Unsubscribed
               \/ In (Subscription.id s) ids) ->
    forall s, In s rows' -> bound_to userId newsletterEmailId s = true ->
              Subscription.status s = Unsubscribed.
Proof.
  induction ids as [|i ids IH]; intros rows rows' Hsteps Hinv; cbn in Hsteps.
  - subst. intros s Hs Hb. destruct (Hinv s Hs Hb) as [H|[]]. exact H.
  - destruct Hsteps as (mid & Hset & Hrest).
    apply (IH mid rows' Hrest). intros s Hs Hb.
    destruct Hset as [->| ->].
    + apply filter_In in Hs as [Hs Hid]. apply negb_true_iff in Hid.
      destruct (Hinv s Hs Hb) as [H|[H|H]]; auto.
      unfold has_id in Hid. rewrite <- H, String.eqb_refl in Hid. discriminate.
    + apply in_map_iff in Hs as (s0 & <- & Hs0).
      rewrite bound_to_update_status in Hb.
      unfold update_row. destruct (has_id i s0) eqn:Hid.
      * left. reflexivity.
      * destruct (Hinv s0 Hs0 Hb) as [H|[H|H]]; auto.
        unfold has_id in Hid. rewrite <- H, String.eqb_refl in Hid.
        discriminate.
Qed.

(** With a store that raises no error, [unsubscribeAll] leaves no
    subscription of the address in another status than Unsubscribed: each
    one is deleted or demoted. *)
Theorem unsubscribeAll_leaves_none_active E newsletterEmail w :
  (forall t op, repo_fault E t op = None) ->
  forall s,
    In s (subscriptions (snd (unsubscribeAll E newsletterEmail w))) ->
    bound_to (NewsletterEmail.user newsletterEmail)
             (NewsletterEmail.id newsletterEmail) s = true ->
    Subscription.status s = Unsubscribed.
Proof.
  intros Hok.
  destruct (unsubscribeAll_outcome E newsletterEmail w)
    as (evs & rows' & Hrun & _ & Hs & _).
  rewrite Hrun. cbn [snd subscriptions after].
  apply (steps_settled_none_active _ _ _ _ _ (Hs Hok)).
  intros s Hin Hb. right. apply in_map. apply filter_In. auto.
Qed.

Lemma unsubscribeAll_leaves_none_active_witness :
  Forall (fun s =>
            bound_to "user-1" "ne-1" s = true ->
            Subscription.status s = Unsubscribed)
         (subscriptions
            (snd (unsubscribeAll Sample.env Sample.mailbox Sample.world))).
Proof.
  apply Forall_forall.
  exact (unsubscribeAll_leaves_none_active
           Sample.env Sample.mailbox Sample.world (fun _ _ => eq_refl)).
Defined.

(* ------------------------------------------------------------------ *)
(** ** More on the upsert *)

Lemma row_identity_update_row input lastFetchedAt id rows :
  map row_identity
      (map (update_row id (subscriptionData input lastFetchedAt)) rows)
  = map row_identity rows.
Proof.
  rewrite map_map. apply map_ext. intros s.
  unfold update_row. destruct (has_id id s); reflexivity.
Qed.

(** Whatever the store answers, [saveSubscription] makes store calls only,
    keeps every row of the table in place with its id, key, status and
    NewsletterEmail link, and adds at most one row, at the end, and only
    when no row matches (user, name, Newsletter).  In particular a row
    demoted to Unsubscribed is not made Active again, and a row is not
    moved to the NewsletterEmail of the input. *)
Theorem saveSubscription_keeps_existing_rows E input w :
  exists evs r kept added,
    saveSubscription E input w = (r, after evs (kept ++ added) w)
    /\ map row_identity kept = map row_identity (subscriptions w)
    /\ length added <= 1
    /\ (added <> [] ->
        find (matches (in_name input) (in_userId input) Newsletter)
             (subscriptions w) = None)
    /\ forallb is_repo evs = true.
Proof.
  unfold saveSubscription, getSubscriptionByNameAndUserId,
    Subscription_findOneBy, Subscription_update, Subscription_save.
  run.
  destruct (repo_fault E (now w) _).
  { eexists [_], _, (subscriptions w), [].
    rewrite app_nil_r. split; [reflexivity|]. splits; try congruence. }
  cbn [subscriptions].
  destruct (find _ (subscriptions w)) as [existing|] eqn:Hfind.
  - destruct (repo_fault E _ _); cbn.
    + eexists [_; _], _, (subscriptions w), [].
      rewrite app_nil_r. split; [reflexivity|]. splits; try congruence.
    + eexists [_; _], _, _, []. rewrite app_nil_r. split; [reflexivity|].
      split; [apply row_identity_update_row|]. splits; try congruence.
  - destruct (repo_fault E _ _); cbn.
    + eexists [_; _], _, (subscriptions w), [].
      rewrite app_nil_r. split; [reflexivity|]. splits; try congruence.
    + rewrite (find_none_existsb _ _ Hfind), andb_false_r. cbn.
      eexists [_; _], _, (subscriptions w), [_].
      split; [reflexivity|]. splits.
Qed.

(** Save, then look up: with a store that raises no error, the row that
    [getSubscriptionByNameAndUserId] finds after [saveSubscription] is the
    row whose id was returned; it carries the name, the user, the type
    Newsletter, the time of the call as lastFetchedAt, and every metadata
    field the input defines. *)
Theorem saveSubscription_then_lookup E input w :
  (forall t op, repo_fault E t op = None) ->
  exists id w1 row w2,
    saveSubscription E input w = (Ok id, w1)
    /\ getSubscriptionByNameAndUserId E (in_name input) (in_userId input) w1
       = (Ok (Some row), w2)
    /\ subscriptions w2 = subscriptions w1
    /\ Subscription.id row = id
    /\ Subscription.key row = (in_userId input, in_name input, Newsletter)
    /\ Subscription.lastFetchedAt row = Some (clock E (now w))
    /\ (forall v, in_unsubscribeMailTo input = Some v ->
                  Subscription.unsubscribeMailTo row = Some v)
    /\ (forall v, in_unsubscribeHttpUrl input = Some v ->
                  Subscription.unsubscribeHttpUrl row = Some v)
    /\ (forall v, in_icon input = Some v -> Subscription.icon row = Some v).
Proof.
  intros Hok.
  assert (Hlookup : forall w0 row,
             find (matches (in_name input) (in_userId input) Newsletter)
                  (subscriptions w0) = Some row ->
             exists w3,
               getSubscriptionByNameAndUserId
                 E (in_name input) (in_userId input) w0 = (Ok (Some row), w3)
               /\ subscriptions w3 = subscriptions w0).
  { intros w0 row Hrow.
    unfold getSubscriptionByNameAndUserId, Subscription_findOneBy. run.
    rewrite Hok. cbn [subscriptions]. rewrite Hrow. eauto. }
  rewrite (saveSubscription_run E input w Hok).
  destruct (find _ (subscriptions w)) as [existing|] eqn:Hfind.
  - set (d := subscriptionData input (clock E (now w))).
    set (w1 := after _ _ w).
    assert (Hfind1 : find (matches (in_name input) (in_userId input) Newsletter)
                          (subscriptions w1)
                     = Some (update_row (Subscription.id existing) d existing)).
    { subst w1 d; cbn. rewrite find_map_update_row, Hfind. reflexivity. }
    destruct (Hlookup w1 _ Hfind1) as (w2 & Hget & Hsame).
    exists (Subscription.id existing), w1,
      (update_row (Subscription.id existing) d existing), w2.
    split; [reflexivity|]. split; [exact Hget|]. split; [exact Hsame|].
    apply find_some in Hfind as [_ Hm]. apply matches_key in Hm.
    unfold update_row, has_id. rewrite String.eqb_refl.
    subst d. cbn. splits; intros v ->; reflexivity.
  - set (w1 := after _ _ w).
    assert (Hfind1 : find (matches (in_name input) (in_userId input) Newsletter)
                          (subscriptions w1) = Some (inserted_row E input w)).
    { subst w1; cbn. apply find_app_none; [exact Hfind|].
      apply matches_inserted_row. }
    destruct (Hlookup w1 _ Hfind1) as (w2 & Hget & Hsame).
    exists (Subscription.id (inserted_row E input w)), w1,
      (inserted_row E input w), w2.
    split; [reflexivity|]. split; [exact Hget|]. split; [exact Hsame|].
    cbn. splits.
Qed.

Lemma saveSubscription_then_lookup_witness :
  exists id w1 row w2,
    saveSubscription Sample.env SampleUpsert.input Sample.world = (Ok id, w1)
    /\ getSubscriptionByNameAndUserId Sample.env "Daily" "user-1" w1
       = (Ok (Some row), w2)
    /\ Subscription.id row = id
    /\ Subscription.unsubscribeMailTo row = Some "leave@daily.example"%string.
Proof.
  destruct (saveSubscription_then_lookup
              Sample.env SampleUpsert.input Sample.world (fun _ _ => eq_refl))
    as (id & w1 & row & w2 & Hsave & Hget & _ & Hid & _ & _ & Hmail & _).
  exists id, w1, row, w2. splits.
Defined.

(* ------------------------------------------------------------------ *)
(** ** More on the signup flow *)

Lemma saves_app evs1 evs2 : saves (evs1 ++ evs2) = saves evs1 ++ saves evs2.
Proof.
  induction evs1 as [|[| | |[]|] evs1 IH]; cbn; auto; now rewrite IH.
Qed.

Lemma world_with_world_with rows1 emails1 evs1 rows2 emails2 evs2 w :
  world_with rows2 emails2 evs2 (world_with rows1 emails1 evs1 w)
  = world_with rows2 emails2 (evs2 ++ evs1) w.
Proof. unfold world_with; cbn. now rewrite app_assoc. Qed.

Lemma world_with_nil w :
  world_with (subscriptions w) (newsletter_emails w) [] w = w.
Proof. destruct w; reflexivity. Qed.

Lemma Promise_all_fulfilled {A} (ps : list (Promise A)) rows :
  Promise_all ps = Ok rows -> fulfilled ps = rows /\ ps = map Ok rows.
Proof.
  revert rows. induction ps as [|[a|e] ps IH]; intros rows; cbn.
  - intros [= <-]. auto.
  - destruct (Promise_all ps) as [l|e]; [|discriminate].
    intros [= <-]. destruct (IH l eq_refl) as [-> ->]. auto.
  - discriminate.
Qed.

Section SignupMore.
Variable E : Env.

(** The lookup or the provisioning of the address. *)
Lemma resolve_newsletterEmail_run userId w :
  exists r emails' evs,
    resolve_newsletterEmail E userId w
    = (r, world_with (subscriptions w) emails' evs w)
    /\ saves evs = [] /\ filter is_http evs = [] /\ filter is_email evs = []
    /\ match r with
       | Ok newsletterEmail => NewsletterEmail.user newsletterEmail = userId
       | Throw _ => emails' = newsletter_emails w
       end
    /\ match find (fun e => String.eqb (NewsletterEmail.user e) userId)
                  (newsletter_emails w) with
       | Some existing =>
           filter is_provisioning evs = []
           /\ emails' = newsletter_emails w
           /\ (r = Ok existing \/ exists e, r = Throw e)
       | None =>
           length (filter is_provisioning evs) <= 1
           /\ (emails' = newsletter_emails w /\ (exists e, r = Throw e)
               \/ exists created,
                   r = Ok created
                   /\ emails' = newsletter_emails w ++ [created])
       end
    /\ (answers E -> exists newsletterEmail, r = Ok newsletterEmail).
Proof.
  unfold resolve_newsletterEmail, NewsletterEmail_findOneBy,
    createNewsletterEmail. run.
  destruct (repo_fault E (now w) _) as [e|] eqn:Hfault.
  { eexists _, _, [_]. split; [reflexivity|]. cbn.
    splits;
      try (destruct (find _ _); splits; eauto);
      try (intros (Hstore & _); unfold now in Hfault;
           rewrite Hstore in Hfault; discriminate). }
  cbn [newsletter_emails].
  destruct (find _ (newsletter_emails w)) as [existing|] eqn:Hfind.
  - eexists _, _, [_]. split; [reflexivity|]. cbn.
    splits; eauto;
      try (apply find_some in Hfind as [_ H]; now apply String.eqb_eq in H).
  - destruct (createNewsletterEmail_outcome E _ userId) as [created|e] eqn:Hc;
      cbn.
    + eexists _, _, [_; _]. split; [reflexivity|]. cbn.
      splits; eauto; try (right; eexists; split; reflexivity).
    + eexists _, _, [_; _]. split; [reflexivity|]. cbn.
      splits; try (left; eauto).
      intros (_ & _ & Hprov).
      destruct (Hprov (length (EvRepo (FindOneNewsletterEmail userId)
                                 :: trace w)) userId) as (c & Hc').
      unfold now in Hc. cbn [trace] in Hc. rewrite Hc' in Hc. discriminate.
Qed.

(** The provider call of a handler. *)
Lemma subscribe_outcome this email w :
  exists r evs,
    _subscribe E this email w
    = (r, world_with (subscriptions w) (newsletter_emails w) evs w)
    /\ saves evs = [] /\ filter is_email evs = []
    /\ filter is_provisioning evs = []
    /\ length (filter is_http evs) <= 1
    /\ (r = Ok (activated this) \/ exists e, r = Throw e)
    /\ ((forall t request, axios_outcome E t request = None) ->
        r = Ok (activated this)).
Proof.
  destruct this; cbn [_subscribe activated]; run;
    try (destruct (axios_outcome E _ _) as [e|] eqn:Hout;
         eexists _, [_]; (split; [reflexivity|]); cbn; splits; eauto;
         intros Hok; rewrite Hok in Hout; discriminate).
  exists (Ok []), []. rewrite world_with_nil. cbn. splits.
Qed.

(** One save that is not awaited. *)
Lemma spawn_save_run name newsletterEmailId userId w :
  let data := new_subscription name newsletterEmailId userId in
  exists p,
    spawn (Subscription_save E data) w
    = (Ok p,
       world_with (subscriptions w ++ fulfilled [p]) (newsletter_emails w)
                  [EvRepo (SaveSubscription data)] w)
    /\ (forall row, p = Ok row ->
                    signed_up userId newsletterEmailId row
                    /\ Subscription.name row = name)
    /\ ((forall t d, repo_fault E t (SaveSubscription d) = None) ->
        unique_enforced E = false -> exists row, p = Ok row).
Proof.
  cbv zeta. unfold spawn, Subscription_save. run.
  destruct (repo_fault E (now w) _) as [e|] eqn:Hfault.
  - exists (Throw e). split; [cbn; rewrite app_nil_r; reflexivity|]. split.
    + discriminate.
    + intros Hok. rewrite Hok in Hfault. discriminate.
  - cbn. destruct (unique_enforced E && _) eqn:Hdup; cbn.
    + eexists (Throw _). split; [cbn; rewrite app_nil_r; reflexivity|]. split.
      * discriminate.
      * intros _ Hno. rewrite Hno in Hdup. discriminate.
    + eexists (Ok _). split; [reflexivity|]. split.
      * intros row [= <-]. repeat split.
      * eauto.
Qed.

Lemma fulfilled_cons {A} (p : Promise A) ps :
  fulfilled (p :: ps) = fulfilled [p] ++ fulfilled ps.
Proof. destruct p; reflexivity. Qed.

(** The saves of [handleSubscribe]: every one of them is made. *)
Lemma save_all_outcome userId newsletterEmailId names : forall w,
  exists promises evs,
    map_M (fun name =>
             spawn (Subscription_save
                      E (new_subscription name newsletterEmailId userId)))
          names w
    = (Ok promises,
       world_with (subscriptions w ++ fulfilled promises)
                  (newsletter_emails w) evs w)
    /\ rev (saves evs)
       = map (fun name => new_subscription name newsletterEmailId userId) names
    /\ filter is_http evs = [] /\ filter is_email evs = []
    /\ filter is_provisioning evs = []
    /\ Forall (signed_up userId newsletterEmailId) (fulfilled promises)
    /\ ((forall t d, repo_fault E t (SaveSubscription d) = None) ->
        unique_enforced E = false ->
        promises = map Ok (fulfilled promises)
        /\ map Subscription.name (fulfilled promises) = names).
Proof.
  induction names as [|name names IH]; intros w.
  - exists [], []. cbn. rewrite app_nil_r, world_with_nil. splits.
  - cbn [map_M]. unfold bind at 1.
    destruct (spawn_save_run name newsletterEmailId userId w)
      as (p & Hrun & Hrow & Hok). cbv zeta in Hrun. rewrite Hrun.
    set (w1 := world_with _ _ _ w).
    destruct (IH w1) as (ps & evs & Hrun' & Hs & Hh & Hm & Hp & Hall & Hoks).
    unfold bind at 1. rewrite Hrun'. run.
    exists (p :: ps), (evs ++ [EvRepo (SaveSubscription
                                         (new_subscription
                                            name newsletterEmailId userId))]).
    split; [|splits].
    + unfold w1. rewrite world_with_world_with.
      unfold world_with at 1; cbn [subscriptions newsletter_emails].
      now rewrite (fulfilled_cons p ps), app_assoc.
    + rewrite saves_app, rev_app_distr. cbn. now rewrite Hs.
    + rewrite filter_app, Hh. reflexivity.
    + rewrite filter_app, Hm. reflexivity.
    + rewrite filter_app, Hp. reflexivity.
    + rewrite fulfilled_cons. apply Forall_app. split; [|exact Hall].
      destruct p as [row|e]; cbn; [|constructor].
      constructor; [|constructor]. now apply Hrow.
    + intros H1 H2. destruct (Hok H1 H2) as (row & ->).
      destruct (Hoks H1 H2) as [Hps Hnames]. cbn. split.
      * now rewrite <- Hps.
      * rewrite Hnames. f_equal. now apply Hrow.
Qed.

End SignupMore.

Lemma bind_assoc_at {A B C} (m : M A) (f : A -> M B) (g : B -> M C) w :
  bind (bind m f) g w = bind m (fun x => bind (f x) g) w.
Proof. unfold bind. destruct (m w) as [[a|e] w1]; reflexivity. Qed.

Lemma bind_ext_at {A B} (m1 m2 : M A) (k : A -> M B) w :
  m1 w = m2 w -> bind m1 k w = bind m2 k w.
Proof. unfold bind. now intros ->. Qed.

Lemma try_catch_ext_at {A} (body1 body2 : M A) handler w :
  body1 w = body2 w -> try_catch body1 handler w = try_catch body2 handler w.
Proof. unfold try_catch. now intros ->. Qed.

Section SignupFlow.
Variable E : Env.

(** [handleSubscribe] in two stages. *)
Lemma handleSubscribe_staged this userId name w :
  handleSubscribe E this userId name w
  = bind (try_catch
            (bind (resolve_newsletterEmail E userId)
                  (create_subscriptions E this userId name))
            (fun error =>
               log "Failed to handleSubscribe" (LogError error) ;;
               ret (Ok None)))
         await w.
Proof.
  unfold handleSubscribe. apply bind_ext_at. apply try_catch_ext_at.
  symmetry.
  exact (bind_assoc_at
           (NewsletterEmail_findOneBy E userId)
           (fun found => match found with
                         | Some e => ret e
                         | None => createNewsletterEmail E userId
                         end)
           (create_subscriptions E this userId name) w).
Qed.

(** The provider call and the saves, whatever the collaborators answer. *)
Lemma create_subscriptions_outcome this userId name newsletterEmail w :
  exists r evs added,
    create_subscriptions E this userId name newsletterEmail w
    = (r, world_with (subscriptions w ++ added) (newsletter_emails w) evs w)
    /\ filter is_email evs = [] /\ filter is_provisioning evs = []
    /\ length (filter is_http evs) <= 1
    /\ Forall (signed_up userId (NewsletterEmail.id newsletterEmail)) added
    /\ (saves evs = [] /\ added = []
        /\ (r = Ok (Ok None) \/ exists e, r = Throw e)
        /\ ((forall t request, axios_outcome E t request = None) ->
            activated this = [])
        \/ exists promises,
            activated this <> []
            /\ rev (saves evs)
               = map (fun name =>
                        new_subscription
                          name (NewsletterEmail.id newsletterEmail) userId)
                     (activated this)
            /\ added = fulfilled promises
            /\ r = Ok (match Promise_all promises with
                       | Ok rows => Ok (Some rows)
                       | Throw e => Throw e
                       end)
            /\ ((forall t d, repo_fault E t (SaveSubscription d) = None) ->
                unique_enforced E = false ->
                promises = map Ok added
                /\ map Subscription.name added = activated this)).
Proof.
  unfold create_subscriptions. unfold bind at 1.
  destruct (subscribe_outcome E this (NewsletterEmail.address newsletterEmail) w)
    as (r1 & evs1 & Hrun1 & Hs1 & Hm1 & Hp1 & Hh1 & Hr1 & Hans1).
  rewrite Hrun1.
  destruct Hr1 as [-> | (e & ->)].
  - destruct (activated this) as [|n names] eqn:Hnames.
    + run. eexists _, (_ :: evs1), [].
      split; [unfold world_with; cbn; rewrite app_nil_r; reflexivity|].
      cbn. splits; try (left; splits).
    + set (w1 := world_with _ _ evs1 w).
      destruct (save_all_outcome E userId (NewsletterEmail.id newsletterEmail)
                                 (n :: names) w1)
        as (ps & evs2 & Hrun2 & Hs2 & Hh2 & Hm2 & Hp2 & Hall & Hok).
      unfold bind at 1. rewrite Hrun2. run.
      exists (Ok (match Promise_all ps with
                  | Ok rows => Ok (Some rows)
                  | Throw e => Throw e
                  end)), (evs2 ++ evs1), (fulfilled ps).
      split; [unfold w1; now rewrite world_with_world_with|].
      rewrite !filter_app, Hm1, Hm2, Hp1, Hp2, Hh2, saves_app, Hs1, app_nil_r.
      cbn [app]. splits.
      right. exists ps. splits; [discriminate | now rewrite app_nil_r].
  - exists (Throw e), evs1, []. rewrite app_nil_r. splits.
    left. splits; eauto. intros Hok. specialize (Hans1 Hok). discriminate.
Qed.

(** [handleSubscribe], whatever the collaborators answer. *)
Lemma handleSubscribe_outcome this userId name w :
  exists r evs added emails',
    handleSubscribe E this userId name w
    = (r, world_with (subscriptions w ++ added) emails' evs w)
    /\ filter is_email evs = []
    /\ length (filter is_http evs) <= 1
    /\ match find (fun e => String.eqb (NewsletterEmail.user e) userId)
                  (newsletter_emails w) with
       | Some existing =>
           filter is_provisioning evs = [] /\ emails' = newsletter_emails w
       | None =>
           length (filter is_provisioning evs) <= 1
           /\ (emails' = newsletter_emails w
               \/ exists created,
                   NewsletterEmail.user created = userId
                   /\ emails' = newsletter_emails w ++ [created])
       end
    /\ (saves evs = [] /\ added = [] /\ r = Ok None
        /\ (answers E -> activated this = [])
        \/ exists newsletterEmail promises,
            NewsletterEmail.user newsletterEmail = userId
            /\ In newsletterEmail emails'
            /\ activated this <> []
            /\ rev (saves evs)
               = map (fun name =>
                        new_subscription
                          name (NewsletterEmail.id newsletterEmail) userId)
                     (activated this)
            /\ added = fulfilled promises
            /\ Forall (signed_up userId (NewsletterEmail.id newsletterEmail))
                      added
            /\ r = match Promise_all promises with
                   | Ok rows => Ok (Some rows)
                   | Throw e => Throw e
                   end
            /\ ((forall t d, repo_fault E t (SaveSubscription d) = None) ->
                unique_enforced E = false ->
                promises = map Ok added
                /\ map Subscription.name added = activated this)).
Proof.
  rewrite handleSubscribe_staged.
  unfold bind at 1. unfold try_catch. unfold bind at 1.
  destruct (resolve_newsletterEmail_run E userId w)
    as (r1 & emails1 & evs1 & Hrun1 & Hs1 & Hh1 & Hm1 & Hr1 & Hbox & Hans).
  rewrite Hrun1.
  assert (Hmailbox :
            match find (fun e => String.eqb (NewsletterEmail.user e) userId)
                       (newsletter_emails w) with
            | Some existing =>
                filter is_provisioning evs1 = []
                /\ emails1 = newsletter_emails w
            | None =>
                length (filter is_provisioning evs1) <= 1
                /\ (emails1 = newsletter_emails w
                    \/ exists created,
                        NewsletterEmail.user created = userId
                        /\ emails1 = newsletter_emails w ++ [created])
            end).
  { destruct (find _ (newsletter_emails w)).
    - destruct Hbox as (? & ? & _). auto.
    - destruct Hbox as (Hlen & [[? _]|(created & -> & ->)]); split; auto.
      right. exists created. auto. }
  assert (Hin : forall ne, r1 = Ok ne -> In ne emails1).
  { intros ne ->. destruct (find _ (newsletter_emails w)) as [existing|] eqn:Hf.
    - destruct Hbox as (_ & -> & [[= ->]|(e & [=])]).
      apply (find_some _ _ Hf).
    - destruct Hbox as (_ & [[_ (e & [=])]|(created & [= ->] & ->)]).
      apply in_or_app. right. left. reflexivity. }
  destruct r1 as [newsletterEmail|e].
  - set (w1 := world_with _ emails1 evs1 w).
    destruct (create_subscriptions_outcome this userId name newsletterEmail w1)
      as (r2 & evs2 & added & Hrun2 & Hm2 & Hp2 & Hh2 & Hall & Hcases).
    rewrite Hrun2. unfold w1. rewrite world_with_world_with.
    cbn [subscriptions newsletter_emails world_with].
    fold (world_with (subscriptions w ++ added) emails1 (evs2 ++ evs1) w).
    destruct Hcases as [(Hs2 & -> & [-> | (e & ->)] & Hempty)
                       |(ps & Hne & Hs2 & -> & -> & Hok)];
      try (assert (Hans' : answers E -> activated this = [])
            by (intros (_ & Hax & _); exact (Hempty Hax))).
    + exists (Ok None), (evs2 ++ evs1), [], emails1.
      split; [reflexivity|].
      rewrite !filter_app, Hm1, Hm2, Hh1, Hp2, saves_app, Hs1, Hs2, !app_nil_r.
      cbn [app].
      splits; try (destruct (find _ (newsletter_emails w)); exact Hmailbox).
    + exists (Ok None),
        (EvLog "Failed to handleSubscribe" (LogError e) :: evs2 ++ evs1),
        [], emails1.
      split; [reflexivity|]. cbn [filter is_email is_http is_provisioning saves].
      rewrite !filter_app, Hm1, Hm2, Hh1, Hp2, saves_app, Hs1, Hs2, !app_nil_r.
      cbn [app].
      splits; try (destruct (find _ (newsletter_emails w)); exact Hmailbox).
    + exists (match Promise_all ps with
              | Ok rows => Ok (Some rows)
              | Throw e => Throw e
              end), (evs2 ++ evs1), (fulfilled ps), emails1.
      split; [destruct (Promise_all ps); reflexivity|].
      rewrite !filter_app, Hm1, Hm2, Hh1, Hp2, saves_app, Hs1, !app_nil_r.
      cbn [app].
      splits; try (destruct (find _ (newsletter_emails w)); exact Hmailbox).
      right. exists newsletterEmail, ps. splits.
  - exists (Ok None),
      (EvLog "Failed to handleSubscribe" (LogError e) :: evs1), [], emails1.
    rewrite app_nil_r. split; [subst emails1; reflexivity|].
    cbn [filter is_email is_http is_provisioning saves].
    rewrite Hm1, Hh1, Hs1.
    splits; try (cbn; lia);
      try (destruct (find _ (newsletter_emails w)); exact Hmailbox).
    left. splits. intros Ha. destruct (Hans Ha) as (ne & [=]).
Qed.

End SignupFlow.



(** [handleSubscribe] provisions an address only for a user who has none:
    with an address in the table there is no provisioning call and the
    addresses stay as they are; without one there is at most one call, and
    the only change to the addresses is the new address of the user,
    appended. *)
Theorem handleSubscribe_resolves_address E this userId name w :
  exists r evs rows' emails',
    handleSubscribe E this userId name w
    = (r, world_with rows' emails' evs w)
    /\ match find (fun e => String.eqb (NewsletterEmail.user e) userId)
                  (newsletter_emails w) with
       | Some existing =>
           filter is_provisioning evs = [] /\ emails' = newsletter_emails w
       | None =>
           length (filter is_provisioning evs) <= 1
           /\ (emails' = newsletter_emails w
               \/ exists created,
                   NewsletterEmail.user created = userId
                   /\ emails' = newsletter_emails w ++ [created])
       end.
Proof.
  destruct (handleSubscribe_outcome E this userId name w)
    as (r & evs & added & emails' & Hrun & _ & _ & Hbox & _).
  exists r, evs, (subscriptions w ++ added), emails'. auto.
Qed.

(** Whatever the collaborators answer, [handleSubscribe] sends no email,
    makes at most one HTTP request and only appends rows.  It makes either
    no save (and then returns null), or one save per name the handler
    reports, in order, each for the user and an address of the user that is
    in the table: a save that fails does not stop the others, whose rows
    stay in the table although the call raises. *)
Theorem handleSubscribe_saves_every_name E this userId name w :
  exists r evs added emails',
    handleSubscribe E this userId name w
    = (r, world_with (subscriptions w ++ added) emails' evs w)
    /\ filter is_email evs = []
    /\ length (filter is_http evs) <= 1
    /\ (saves evs = [] /\ added = [] /\ r = Ok None
        \/ exists newsletterEmail,
            NewsletterEmail.user newsletterEmail = userId
            /\ In newsletterEmail emails'
            /\ rev (saves evs)
               = map (fun name =>
                        new_subscription
                          name (NewsletterEmail.id newsletterEmail) userId)
                     (activated this)
            /\ Forall (signed_up userId (NewsletterEmail.id newsletterEmail))
                      added
            /\ (r = Ok (Some added) \/ exists e, r = Throw e)).
Proof.
  destruct (handleSubscribe_outcome E this userId name w)
    as (r & evs & added & emails' & Hrun & Hm & Hh & _ & Hcases).
  exists r, evs, added, emails'. split; [exact Hrun|]. splits.
  destruct Hcases as [(H1 & H2 & H3 & _)
                     |(ne & ps & Hu & Hin & _ & Hs & -> & Hall & -> & _)];
    [left; auto|].
  right. exists ne. splits.
  destruct (Promise_all ps) as [rows|e] eqn:Hall'; [|eauto].
  left. now destruct (Promise_all_fulfilled _ _ Hall') as [-> _].
Qed.

Lemma NoDup_map_injective {A B} (f : A -> B) l :
  (forall a b, f a = f b -> a = b) -> NoDup l -> NoDup (map f l).
Proof.
  intros Hinj. induction 1 as [|a l Hnotin _ IH]; cbn; constructor; auto.
  intros Hin. apply in_map_iff in Hin as (b & Hb & Hin).
  apply Hinj in Hb. now subst.
Qed.

Lemma activated_NoDup this : NoDup (activated this).
Proof.
  destruct this; cbn; repeat constructor; cbn; intuition discriminate.
Qed.

Lemma signed_up_keys userId newsletterEmailId added :
  Forall (signed_up userId newsletterEmailId) added ->
  map Subscription.key added
  = map (fun name => (userId, name, Newsletter)) (map Subscription.name added).
Proof.
  induction 1 as [|s added (_ & Hty & Hu & _) _ IH]; cbn; [reflexivity|].
  rewrite IH. unfold Subscription.key. now rewrite Hty, Hu.
Qed.

(** A first signup keeps (user, name, type) unique: when no save raises and
    the user has no Newsletter subscription yet under any of the names the
    handler reports, the table after [handleSubscribe] has unique keys if it
    had before. *)
Theorem handleSubscribe_first_signup_keeps_unique_keys E this userId name w :
  (forall t d, repo_fault E t (SaveSubscription d) = None) ->
  unique_enforced E = false ->
  (forall n, In n (activated this) ->
             find (matches n userId Newsletter) (subscriptions w) = None) ->
  unique_keys (subscriptions w) ->
  unique_keys (subscriptions (snd (handleSubscribe E this userId name w))).
Proof.
  intros Hsaves Hdup Hnew Huniq.
  destruct (handleSubscribe_outcome E this userId name w)
    as (r & evs & added & emails' & Hrun & _ & _ & _ & Hcases).
  rewrite Hrun. cbn [snd subscriptions world_with].
  destruct Hcases as [(_ & -> & _)
                     |(ne & ps & _ & _ & _ & _ & -> & Hall & _ & Hok)].
  - now rewrite app_nil_r.
  - destruct (Hok Hsaves Hdup) as [_ Hnames].
    unfold unique_keys in *. rewrite map_app.
    rewrite (signed_up_keys _ _ _ Hall), Hnames.
    apply NoDup_app; [exact Huniq| |].
    + apply NoDup_map_injective; [|apply activated_NoDup].
      intros a b [= ->]. reflexivity.
    + intros k Hk Hk'. apply in_map_iff in Hk' as (n & <- & Hn).
      revert Hk. apply find_none_key. now apply Hnew.
Qed.

Lemma handleSubscribe_first_signup_keeps_unique_keys_witness :
  unique_keys
    (subscriptions
       (snd (handleSubscribe Sample.env AxiosEssentialsHandler
                             "user-1" "axios_essentials" Sample.world))).
Proof.
  apply handleSubscribe_first_signup_keeps_unique_keys.
  - intros t d. reflexivity.
  - reflexivity.
  - intros n [<-|[<-|[<-|[]]]]; reflexivity.
  - exact sample_world_unique_keys.
Defined.

(* ------------------------------------------------------------------ *)
(** ** The registry of signup handlers *)

Lemma code_ascii_of_nat n : n < 256 -> code (ascii_of_nat n) = n.
Proof. apply nat_ascii_embedding. Qed.

Lemma is_upper_bounds c : is_upper c = true -> 65 <= code c <= 90.
Proof.
  unfold is_upper. intros H. apply andb_true_iff in H as [H1 H2].
  apply Nat.leb_le in H1, H2. lia.
Qed.

(** Two characters with the same lower case agree on being a given
    character that is not ASCII. *)
Lemma ascii_lower_high a b n :
  ascii_lower a = ascii_lower b -> 128 <= n ->
  (code a =? n) = (code b =? n).
Proof.
  unfold ascii_lower. intros H Hn.
  destruct (is_upper a) eqn:Ha, (is_upper b) eqn:Hb.
  - apply is_upper_bounds in Ha, Hb.
    destruct (Nat.eqb_spec (code a) n), (Nat.eqb_spec (code b) n); auto; lia.
  - apply is_upper_bounds in Ha. subst b.
    rewrite code_ascii_of_nat by lia.
    destruct (Nat.eqb_spec (code a) n), (Nat.eqb_spec (code a + 32) n);
      auto; lia.
  - apply is_upper_bounds in Hb. subst a.
    rewrite code_ascii_of_nat by lia.
    destruct (Nat.eqb_spec (code b) n), (Nat.eqb_spec (code b + 32) n);
      auto; lia.
  - now subst.
Qed.

Lemma lowercases_to_same_case key : forall n1 n2,
  Forall2 (fun x y => ascii_lower x = ascii_lower y) n1 n2 ->
  lowercases_to key n1 = lowercases_to key n2.
Proof.
  induction key as [|k key IH]; intros n1 n2 H.
  - destruct H; reflexivity.
  - destruct H as [|a b t1 t2 Hab Ht]; [reflexivity|].
    cbn [lowercases_to]. destruct (is_upper k); [reflexivity|].
    rewrite Hab. destruct (ascii_lower b =? k)%char; [now apply IH|].
    rewrite (ascii_lower_high a b 226 Hab) by lia.
    destruct ((k =? "k")%char && (code b =? 226)); [|reflexivity].
    destruct Ht as [|a2 b2 t1 t2 H2 Ht]; [reflexivity|].
    destruct Ht as [|a3 b3 t1 t2 H3 Ht]; [reflexivity|].
    rewrite (ascii_lower_high a2 b2 132 H2) by lia.
    rewrite (ascii_lower_high a3 b3 170 H3) by lia.
    now rewrite (IH t1 t2 Ht).
Qed.

(** The registry does not see the case of ASCII letters: two names that
    differ in it only get the same handler, or none. *)
Theorem getSubscribeHandler_ignores_case (a b : string) :
  same_up_to_case a b ->
  getSubscribeHandler a = getSubscribeHandler b.
Proof.
  intros H. unfold getSubscribeHandler.
  now rewrite !(lowercases_to_same_case _ _ _ H).
Qed.

Lemma getSubscribeHandler_ignores_case_witness :
  getSubscribeHandler "Morning_Brew" = getSubscribeHandler "MORNING_BREW"
  /\ getSubscribeHandler "MORNING_BREW" = Some MorningBrewHandler.
Proof.
  split; [|reflexivity].
  apply getSubscribeHandler_ignores_case.
  unfold same_up_to_case. cbn. repeat constructor.
Defined.

Lemma getSubscribeHandler_activated name h :
  getSubscribeHandler name = Some h ->
  h <> SubscribeHandler /\ activated h <> [].
Proof.
  unfold getSubscribeHandler.
  repeat match goal with
         | |- context [if ?c then _ else _] => destruct c
         end; intros [= <-]; split; discriminate.
Qed.

(** The registry never gives the base handler, so the handler it gives for
    a name reports at least one newsletter: when every collaborator answers
    and the store accepts duplicates, [handleSubscribe] on that handler
    returns rows, one per newsletter of the provider, and not null. *)
Theorem registered_handler_signs_up E key h userId w :
  answers E ->
  unique_enforced E = false ->
  getSubscribeHandler key = Some h ->
  h <> SubscribeHandler
  /\ exists rows evs emails',
      handleSubscribe E h userId key w
      = (Ok (Some rows), world_with (subscriptions w ++ rows) emails' evs w)
      /\ rows <> []
      /\ map Subscription.name rows = activated h.
Proof.
  intros Hans Hdup Hreg.
  destruct (getSubscribeHandler_activated _ _ Hreg) as [Hbase Hnames].
  split; [exact Hbase|].
  destruct (handleSubscribe_outcome E h userId key w)
    as (r & evs & added & emails' & Hrun & _ & _ & _ & Hcases).
  destruct Hcases as [(_ & _ & _ & Hempty)
                     |(ne & ps & _ & _ & _ & _ & -> & _ & -> & Hok)].
  - exfalso. exact (Hnames (Hempty Hans)).
  - destruct Hans as (Hstore & _).
    destruct (Hok (fun t d => Hstore t (SaveSubscription d)) Hdup)
      as [Hps Hrows].
    remember (fulfilled ps) as rows eqn:Heq.
    rewrite Hps, Promise_all_ok in Hrun.
    exists rows, evs, emails'. split; [exact Hrun|]. split; [|exact Hrows].
    intros ->. cbn in Hrows. auto.
Qed.

Lemma sample_env_answers : answers Sample.env.
Proof.
  split; [|split].
  - intros t op. reflexivity.
  - intros t r. reflexivity.
  - intros t userId. eexists. reflexivity.
Qed.

Lemma registered_handler_signs_up_witness :
  exists rows evs emails',
    handleSubscribe Sample.env MilkRoadHandler "user-1" "Milk_Road"
                    Sample.world
    = (Ok (Some rows),
       world_with (subscriptions Sample.world ++ rows) emails' evs
                  Sample.world)
    /\ rows <> []
    /\ map Subscription.name rows = ["Milk Road"%string].
Proof.
  destruct (registered_handler_signs_up
              Sample.env "Milk_Road" MilkRoadHandler "user-1" Sample.world
              sample_env_answers eq_refl eq_refl)
    as (_ & H).
  exact H.
Defined.

(* ------------------------------------------------------------------ *)
(** ** The uniqueness invariant, operation by operation *)






Section Invariant.
Variable E : Env.
Variable P : list Subscription.t -> Prop.






End Invariant.







